(** * Firefly-GAN: the HiFiGAN training protocol

    A shallow embedding of [fish_vocoder/models/hifigan.py] (class
    [HiFiGANModel]): the manual two-optimizer training step, the validation
    step and the three static loss utilities.

    The networks, the mel transforms, the STFT loss and [sequence_mask] are
    collaborators of the class and appear as fields of the model record.
    Tensors are dense row-major arrays; their element arithmetic is an
    interface with two instances, IEEE binary32 (the dtype the code runs
    with) and exact rationals.  What a step does to its optimizers,
    schedulers and logger is recorded as a trace of events. *)

From Stdlib Require Import String Ascii ZArith List Bool Lia Arith Permutation.
From Stdlib Require Import QArith Qcanon Qcabs.
From Stdlib Require Import Floats.SpecFloat.
Import ListNotations.

Set Implicit Arguments.

Close Scope Qc_scope.
Close Scope Q_scope.
Open Scope nat_scope.

(** * Element arithmetic *)

(** The operations the code applies to tensor elements.  [of_dyadic m e] is
    the element nearest to [m * 2^e]: Python's [int] and [float] literals
    ([0], [1], [len(...)], [2.5]) are all of this form. *)
Class Scalar (F : Type) : Type := {
  of_dyadic : Z -> Z -> F;
  fadd : F -> F -> F;
  fsub : F -> F -> F;
  fmul : F -> F -> F;
  fdiv : F -> F -> F;
  fabs : F -> F
}.

Definition of_int {F} `{Scalar F} (n : Z) : F := of_dyadic n 0.

(** ** IEEE binary32, round to nearest even ([torch.float32]) *)
Module Binary32.

Definition prec : Z := 24%Z.
Definition emax : Z := 128%Z.

Definition float32 : Type := spec_float.

Definition of_dyadic (m e : Z) : float32 := binary_normalize prec emax m e false.
Definition add : float32 -> float32 -> float32 := SFadd prec emax.
Definition sub : float32 -> float32 -> float32 := SFsub prec emax.
Definition mul : float32 -> float32 -> float32 := SFmul prec emax.
Definition div : float32 -> float32 -> float32 := SFdiv prec emax.

Definition zero : float32 := S754_zero false.
Definition inf : float32 := S754_infinity false.
Definition nan : float32 := S754_nan.

(** Neither an infinity nor a NaN ([torch.isfinite]). *)
Definition is_finite (x : float32) : bool :=
  match x with
  | S754_zero _ | S754_finite _ _ _ => true
  | S754_infinity _ | S754_nan => false
  end.

(** The comparison [==] of IEEE 754: [-0.0 == 0.0], and a NaN equals
    nothing. *)
Definition eqb : float32 -> float32 -> bool := SFeqb.

#[global] Instance scalar32 : Scalar float32 := {
  of_dyadic := of_dyadic;
  fadd := add;
  fsub := sub;
  fmul := mul;
  fdiv := div;
  fabs := SFabs
}.

End Binary32.

(** ** Exact rational arithmetic *)
Module Exact.

Definition pow2 (e : Z) : Q :=
  match e with
  | Z0 => 1%Q
  | Zpos p => inject_Z (Z.pow_pos 2 p)
  | Zneg p => (1 # Pos.pow 2 p)%Q
  end.

Definition of_dyadic (m e : Z) : Qc := Q2Qc (inject_Z m * pow2 e)%Q.

#[global] Instance scalarQc : Scalar Qc := {
  of_dyadic := of_dyadic;
  fadd := Qcplus;
  fsub := Qcminus;
  fmul := Qcmult;
  fdiv := Qcdiv;
  fabs := Qcabs
}.

End Exact.

(** * Exceptions and results *)

(** The Python exceptions the modelled code can raise. *)
Inductive exn : Type :=
| AssertionError
| ZeroDivisionError
| RuntimeError
| IndexError
| AttributeError
| ValueError.

(** A pure computation that may raise. *)
Definition result (A : Type) : Type := (exn + A)%type.

Definition rbind {A B} (r : result A) (k : A -> result B) : result B :=
  match r with
  | inl e => inl e
  | inr a => k a
  end.

(** * Tensors *)

(** A dense tensor: its [shape] and its elements in row-major order. *)
Record tensor (A : Type) : Type := mkTensor {
  shape : list nat;
  data : list A
}.

Arguments mkTensor {A} shape data.

Definition numel_of (s : list nat) : nat := fold_right Nat.mul 1 s.

(** [wf t]: the data fill the shape. *)
Definition wf {A} (t : tensor A) : Prop := length (data t) = numel_of (shape t).

Definition shape_eq_dec (s1 s2 : list nat) : {s1 = s2} + {s1 <> s2} :=
  list_eq_dec Nat.eq_dec s1 s2.

(** A one-dimensional tensor. *)
Definition vector {A} (l : list A) : tensor A := mkTensor [length l] l.

(** Element-wise unary operation. *)
Definition tmap {A B} (f : A -> B) (t : tensor A) : tensor B :=
  mkTensor (shape t) (map f (data t)).

(** ** Broadcasting *)

(** Shapes are aligned at their last dimension, so the work is done on
    reversed shapes. *)
Fixpoint broadcast_rev (s1 s2 : list nat) : option (list nat) :=
  match s1, s2 with
  | [], s => Some s
  | s, [] => Some s
  | a :: s1', b :: s2' =>
      match broadcast_rev s1' s2' with
      | None => None
      | Some s =>
          if a =? b then Some (a :: s)
          else if a =? 1 then Some (b :: s)
          else if b =? 1 then Some (a :: s)
          else None
      end
  end.

Definition broadcast_shapes (s1 s2 : list nat) : option (list nat) :=
  option_map (@rev nat) (broadcast_rev (rev s1) (rev s2)).

(** The row-major position, in a tensor of reversed shape [src], of the
    element that lands at position [k] of the broadcast result of reversed
    shape [out]. *)
Fixpoint bindex (src out : list nat) (k : nat) : nat :=
  match src, out with
  | a :: src', n :: out' =>
      (if a =? 1 then 0 else k mod n) + a * bindex src' out' (k / n)
  | _, _ => 0
  end.

(** Element-wise binary operation with broadcasting; [RuntimeError] when the
    shapes do not broadcast. *)
Definition tmap2 {A B C} (f : A -> B -> C) (x : tensor A) (y : tensor B)
  : result (tensor C) :=
  match broadcast_shapes (shape x) (shape y) with
  | None => inl RuntimeError
  | Some s =>
      let pick k :=
        match nth_error (data x) (bindex (rev (shape x)) (rev s) k),
              nth_error (data y) (bindex (rev (shape y)) (rev s) k) with
        | Some a, Some b => [f a b]
        | _, _ => []
        end in
      inr (mkTensor s (flat_map pick (seq 0 (numel_of s))))
  end.

(** ** Indexing *)

(** [t.squeeze(1)] *)
Definition squeeze1 {A} (t : tensor A) : result (tensor A) :=
  match shape t with
  | d0 :: d1 :: rest =>
      inr (if d1 =? 1 then mkTensor (d0 :: rest) (data t) else t)
  | _ => inl IndexError
  end.

(** [t[:, None, :]] *)
Definition index_colon_none_colon {A} (t : tensor A) : result (tensor A) :=
  match shape t with
  | d0 :: d1 :: rest => inr (mkTensor (d0 :: 1 :: d1 :: rest) (data t))
  | _ => inl IndexError
  end.

(** [t.shape[i]] *)
Definition shape_at {A} (t : tensor A) (i : nat) : result nat :=
  match nth_error (shape t) i with
  | Some d => inr d
  | None => inl IndexError
  end.

(** [t.shape[-1]] *)
Definition shape_last {A} (t : tensor A) : result nat :=
  match rev (shape t) with
  | d :: _ => inr d
  | [] => inl IndexError
  end.

(** A slice bound [i] normalised against a dimension of size [n], as Python
    does: negative bounds count from the end, and the result is clamped to
    [0, n]. *)
Definition slice_bound (n : nat) (i : Z) : nat :=
  Z.to_nat (Z.min (Z.of_nat n) (Z.max 0 (if (i <? 0)%Z then i + Z.of_nat n else i))).

(** The rows of length [n] of [l], each cut to [len] elements from [lo]. *)
Fixpoint slice_rows {A} (rows n lo len : nat) (l : list A) : list A :=
  match rows with
  | O => []
  | S r => firstn len (skipn lo (firstn n l)) ++ slice_rows r n lo len (skipn n l)
  end.

(** [t[..., a:b]] *)
Definition slice_last {A} (a b : Z) (t : tensor A) : result (tensor A) :=
  match rev (shape t) with
  | [] => inl IndexError
  | n :: outer =>
      let lo := slice_bound n a in
      let hi := slice_bound n b in
      let len := hi - lo in
      inr (mkTensor (rev (len :: outer))
                    (slice_rows (numel_of outer) n lo len (data t)))
  end.

(** [window rows n start len t t']: [t'] holds, for each of the [rows] rows
    of length [n] of [t], the [len] elements that start at position [start]
    of the row, and nothing else. *)
Definition window {A} (rows n start len : nat) (t t' : tensor A) : Prop :=
  List.length (data t') = rows * len
  /\ forall r j, r < rows -> j < len ->
       nth_error (data t') (r * len + j) = nth_error (data t) (r * n + start + j).

(** ** Reductions *)

Section Reductions.
Context {F : Type} `{Scalar F}.

(** [torch.sum].  Torch leaves the order of its additions to the kernel it
    runs; here the elements are added from the first to the last.  The two
    agree wherever the additions are exact and may differ in the last bit
    where they round. *)
Definition tsum (t : tensor F) : F := fold_left fadd (data t) (of_int 0).

(** [torch.mean]: the sum divided by the number of elements. *)
Definition tmean (t : tensor F) : F :=
  fdiv (tsum t) (of_int (Z.of_nat (length (data t)))).

(** [F.l1_loss(x, y)] with the default mean reduction; the arguments are
    broadcast against each other first. *)
Definition l1_loss (x y : tensor F) : result F :=
  rbind (tmap2 (fun a b => fabs (fsub a b)) x y) (fun d => inr (tmean d)).

(** [torch.mean((1 - d) ** 2)] *)
Definition mean_sq_one_minus (d : tensor F) : F :=
  tmean (tmap (fun x => let y := fsub (of_int 1) x in fmul y y) d).

(** [torch.mean((d - 1) ** 2)] *)
Definition mean_sq_minus_one (d : tensor F) : F :=
  tmean (tmap (fun x => let y := fsub x (of_int 1) in fmul y y) d).

(** [torch.mean(d ** 2)] *)
Definition mean_sq (d : tensor F) : F :=
  tmean (tmap (fun x => fmul x x) d).

End Reductions.

(** * Python numbers *)

(** What a loss accumulator of the code can hold: the [int] it is
    initialised with, a [float], or a zero-dimensional tensor. *)
Inductive pynum (F : Type) : Type :=
| PyInt (n : Z)
| PyFloat (x : F)
| PyTensor (x : F).

Arguments PyInt {F} n.
Arguments PyFloat {F} x.
Arguments PyTensor {F} x.

Section PyNum.
Context {F : Type} `{Scalar F}.

(** The element a number converts to when it meets a tensor. *)
Definition py_value (v : pynum F) : F :=
  match v with
  | PyInt n => of_int n
  | PyFloat x => x
  | PyTensor x => x
  end.

(** [acc + t] and [acc += t] for a tensor [t]: the result is a tensor. *)
Definition py_add_tensor (acc : pynum F) (t : F) : pynum F :=
  PyTensor (fadd (py_value acc) t).

(** [acc /= n] for an [int] [n]: two [int]s divide as Python numbers, and
    raise on a zero divisor; a tensor divides element-wise and never raises. *)
Definition py_div_int (acc : pynum F) (n : Z) : result (pynum F) :=
  match acc with
  | PyInt a =>
      if (n =? 0)%Z then inl ZeroDivisionError
      else inr (PyFloat (fdiv (of_int a) (of_int n)))
  | PyFloat x =>
      if (n =? 0)%Z then inl ZeroDivisionError
      else inr (PyFloat (fdiv x (of_int n)))
  | PyTensor x => inr (PyTensor (fdiv x (of_int n)))
  end.

End PyNum.

(** * Effects of a step *)

(** The two optimizers (and their schedulers) of [configure_optimizers]. *)
Inductive party : Type := Gen | Disc.

Definition party_eq_dec (a b : party) : {a = b} + {a <> b}.
Proof. decide equality. Defined.

(** The keyword arguments of [self.log]. *)
Record log_flags : Type := mkFlags {
  on_step : bool;
  on_epoch : bool;
  prog_bar : bool;
  logger : bool;
  sync_dist : bool
}.

(** What a step does to the world outside its local variables. *)
Inductive event (F : Type) : Type :=
| ZeroGrad (o : party)
| ManualBackward (loss : F)
| OptimizerStep (o : party)
| SchedulerStep (o : party)
| Log (key : string) (value : pynum F) (flags : log_flags)
| NoGradEnter
| NoGradExit
| ReportValMetrics (y_g_hat y : tensor F) (lengths : list Z).

Arguments ZeroGrad {F} o.
Arguments ManualBackward {F} loss.
Arguments OptimizerStep {F} o.
Arguments SchedulerStep {F} o.
Arguments Log {F} key value flags.
Arguments NoGradEnter {F}.
Arguments NoGradExit {F}.
Arguments ReportValMetrics {F} y_g_hat y lengths.

(** A step: the events it performed, in order, and how it ended. *)
Definition M (F A : Type) : Type := (list (event F) * result A)%type.

Section Monad.
Context {F : Type}.

Definition ret {A} (a : A) : M F A := ([], inr a).

Definition bind {A B} (m : M F A) (k : A -> M F B) : M F B :=
  match m with
  | (tr, inl e) => (tr, inl e)
  | (tr, inr a) => let (tr', r) := k a in (tr ++ tr', r)
  end.

Definition emit (ev : event F) : M F unit := ([ev], inr tt).

Definition raise {A} (e : exn) : M F A := ([], inl e).

Definition lift {A} (r : result A) : M F A := ([], r).

(** [assert c] *)
Definition py_assert (c : bool) : M F unit :=
  if c then ret tt else raise AssertionError.

(** [with torch.no_grad(): body] *)
Definition no_grad {A} (body : M F A) : M F A :=
  match bind (emit NoGradEnter) (fun _ => body) with
  | (tr, r) => (tr ++ [NoGradExit], r)
  end.

(** [for x in l: acc = body(acc, x)] *)
Fixpoint for_each {X S} (l : list X) (body : S -> X -> M F S) (acc : S) : M F S :=
  match l with
  | [] => ret acc
  | x :: l' => bind (body acc x) (for_each l' body)
  end.

End Monad.

Declare Scope step_scope.
Delimit Scope step_scope with step.
Notation "x <- m ;; k" := (bind m (fun x => k))
  (at level 61, m at next level, right associativity) : step_scope.
Notation "m ;; k" := (bind m (fun _ => k))
  (at level 61, right associativity) : step_scope.
Notation "' pat <- m ;; k" := (bind m (fun x => match x with pat => k end))
  (at level 61, pat pattern, m at next level, right associativity) : step_scope.

(** The events of a trace that are optimizer or scheduler steps. *)
Definition is_update {F} (ev : event F) : bool :=
  match ev with
  | OptimizerStep _ | SchedulerStep _ => true
  | _ => false
  end.

Definition updates {F} (tr : list (event F)) : list (event F) := filter is_update tr.

(** How often optimizer [o] has stepped in a trace. *)
Definition optimizer_steps {F} (o : party) (tr : list (event F)) : nat :=
  List.length (filter (fun ev => match ev with
                                 | OptimizerStep o' => if party_eq_dec o o' then true else false
                                 | _ => false
                                 end) tr).

(** How often the scheduler of [o] has stepped in a trace. *)
Definition scheduler_steps {F} (o : party) (tr : list (event F)) : nat :=
  List.length (filter (fun ev => match ev with
                                 | SchedulerStep o' => if party_eq_dec o o' then true else false
                                 | _ => false
                                 end) tr).

(** The losses handed to [manual_backward], in order. *)
Definition backwards {F} (tr : list (event F)) : list F :=
  flat_map (fun ev => match ev with ManualBackward l => [l] | _ => [] end) tr.

(** The events a validation step can perform. *)
Definition is_report {F} (ev : event F) : bool :=
  match ev with
  | Log _ _ _ | ReportValMetrics _ _ _ => true
  | _ => false
  end.

(** A trace without update and without backward pass. *)
Definition silent {F} (tr : list (event F)) : Prop :=
  updates tr = [] /\ backwards tr = [].

(** * The model *)

(** A discriminator maps a waveform to its score and its feature maps. *)
Definition discriminator (F : Type) : Type := tensor F -> tensor F * list (tensor F).

(** The attributes of [HiFiGANModel] the steps read.  [discriminators] is an
    [nn.ModuleDict]: its items come in insertion order.  [sequence_mask] is
    imported from [fish_vocoder.utils.mask]. *)
Record HiFiGANModel (F : Type) : Type := mkModel {
  mel_transforms_input : tensor F -> tensor F;
  mel_transforms_loss : tensor F -> tensor F;
  generator : tensor F -> tensor F;
  discriminators : list (string * discriminator F);
  multi_resolution_stft_loss : tensor F -> tensor F -> F * F;
  sequence_mask : list Z -> tensor bool;
  crop_length : option Z
}.

(** A batch: [batch["audio"]] and [batch["lengths"]]. *)
Record batch (F : Type) : Type := mkBatch {
  audio : tensor F;
  lengths : list Z
}.

(** The bounds of [torch.int64]. *)
Definition int64_min : Z := (-9223372036854775808)%Z.
Definition int64_max : Z := 9223372036854775807%Z.

Definition in_int64 (z : Z) : bool := ((int64_min <=? z) && (z <=? int64_max))%Z.

(** [torch.randint(low, high, (1,))], reading the raw draw [u] of the random
    generator.  The bounds are unpacked as [int64]: [ValueError] when one of
    them does not fit; then [RuntimeError] unless [low < high]. *)
Definition randint (low high : Z) (u : Z) : result Z :=
  if in_int64 low && in_int64 high then
    if (low <? high)%Z then inr (low + u mod (high - low))%Z else inl RuntimeError
  else inl ValueError.

(** What [torch.randint(0, high, (1,))] returns as the raw draw runs through
    the [k]-th run of [high] consecutive values. *)
Definition draws_of_period (high k : Z) : list (result Z) :=
  map (fun i => randint 0 high (k * high + Z.of_nat i)%Z) (seq 0 (Z.to_nat high)).

Section Steps.
Context {F : Type} `{Scalar F}.
Variable self : HiFiGANModel F.

Local Open Scope step_scope.
Local Open Scope string_scope.

(** [on_step=True, on_epoch=False, logger=True, sync_dist=True] *)
Definition step_flags (bar : bool) : log_flags := mkFlags true false bar true true.

(** [on_step=False, on_epoch=True, prog_bar=True, logger=True, sync_dist=True] *)
Definition epoch_flags : log_flags := mkFlags false true true true true.

(** [mask.to(audio.device, torch.float32)] *)
Definition to_float32 (mask : tensor bool) : tensor F :=
  tmap (fun b : bool => of_int (if b then 1 else 0)%Z) mask.

(** [fake_audio.detach()]: the same values, cut from the autograd graph. *)
Definition detach (t : tensor F) : tensor F := t.

(** [self.manual_backward(loss)]: only a tensor has a [backward]. *)
Definition manual_backward (loss : pynum F) : M F unit :=
  match loss with
  | PyTensor x => emit (ManualBackward x)
  | _ => raise AttributeError
  end.

(** Lines 80-92 of [training_step]: the mask, the generator's forward pass,
    the shape assertion and the masking.  Returns the masked [audio], the
    masked [fake_audio] and [audio_mask]. *)
Definition masked_forward (b : batch F) : M F (tensor F * tensor F * tensor F) :=
  let audio0 := audio b in
  mask <- lift (index_colon_none_colon (sequence_mask self (lengths b))) ;;
  let audio_mask := to_float32 mask in
  emit (ZeroGrad Gen) ;;
  squeezed <- lift (squeeze1 audio0) ;;
  let input_mels := mel_transforms_input self squeezed in
  let fake_audio0 := generator self input_mels in
  py_assert (if shape_eq_dec (shape fake_audio0) (shape audio0) then true else false) ;;
  audio1 <- lift (tmap2 fmul audio0 audio_mask) ;;
  fake_audio1 <- lift (tmap2 fmul fake_audio0 audio_mask) ;;
  ret (audio1, fake_audio1, audio_mask).

(** Lines 94-125: the STFT loss, and the mel loss under [torch.no_grad()].
    Returns [loss_stft]. *)
Definition monitored_losses (audio1 fake_audio1 : tensor F) : M F F :=
  fake_sq <- lift (squeeze1 fake_audio1) ;;
  audio_sq <- lift (squeeze1 audio1) ;;
  let (sc_loss, mag_loss) := multi_resolution_stft_loss self fake_sq audio_sq in
  let loss_stft := fadd sc_loss mag_loss in
  emit (Log "train/generator/stft" (PyTensor loss_stft) (step_flags true)) ;;
  no_grad (
    audio_sq' <- lift (squeeze1 audio1) ;;
    let audio_mel := mel_transforms_loss self audio_sq' in
    fake_sq' <- lift (squeeze1 fake_audio1) ;;
    let fake_audio_mel := mel_transforms_loss self fake_sq' in
    loss_mel <- lift (l1_loss audio_mel fake_audio_mel) ;;
    emit (Log "train/generator/mel" (PyTensor loss_mel) (step_flags true))) ;;
  ret loss_stft.

(** Lines 128-135: the optional crop, from the raw random draw [u]. *)
Definition crop (u : Z) (audio1 fake_audio1 audio_mask : tensor F)
  : M F (tensor F * tensor F * tensor F) :=
  match crop_length self with
  | None => ret (audio1, fake_audio1, audio_mask)
  | Some c =>
      time <- lift (shape_at audio1 2) ;;
      if (c <? Z.of_nat time)%Z then
        last <- lift (shape_last audio1) ;;
        slice_idx <- lift (randint 0 (Z.of_nat last - c) u) ;;
        audio2 <- lift (slice_last slice_idx (slice_idx + c) audio1) ;;
        fake_audio2 <- lift (slice_last slice_idx (slice_idx + c) fake_audio1) ;;
        audio_mask2 <- lift (slice_last slice_idx (slice_idx + c) audio_mask) ;;
        py_assert (if shape_eq_dec (shape audio2) (shape fake_audio2)
                   then (if shape_eq_dec (shape fake_audio2) (shape audio_mask2)
                         then true else false)
                   else false) ;;
        ret (audio2, fake_audio2, audio_mask2)
      else ret (audio1, fake_audio1, audio_mask)
  end.

(** Lines 138-154: one turn of the adversarial-loss loop. *)
Definition adv_body (fake_audio2 : tensor F) (loss_adv_all : pynum F)
  (item : string * discriminator F) : M F (pynum F) :=
  let (key, disc) := item in
  let score_fake := fst (disc fake_audio2) in
  let loss_fake := mean_sq_one_minus score_fake in
  emit (Log ("train/generator/adv_" ++ key) (PyTensor loss_fake) (step_flags false)) ;;
  ret (py_add_tensor loss_adv_all loss_fake).

(** Lines 138-160: the generator's losses, its backward pass and its
    optimizer step. *)
Definition generator_phase (loss_stft : F) (fake_audio2 : tensor F) : M F unit :=
  loss_adv_all <- for_each (discriminators self) (adv_body fake_audio2) (PyInt 0) ;;
  loss_adv_all <- lift (py_div_int loss_adv_all (Z.of_nat (List.length (discriminators self)))) ;;
  let loss_gen_all := fadd (fmul loss_stft (of_dyadic 5 (-1))) (py_value loss_adv_all) in
  manual_backward (PyTensor loss_gen_all) ;;
  emit (OptimizerStep Gen).

(** Lines 165-182: one turn of the discriminator-loss loop. *)
Definition disc_body (audio2 fake_audio2 : tensor F) (loss_disc_all : pynum F)
  (item : string * discriminator F) : M F (pynum F) :=
  let (key, disc) := item in
  let score := fst (disc audio2) in
  let score_fake := fst (disc (detach fake_audio2)) in
  let loss_disc := fadd (mean_sq_minus_one score) (mean_sq score_fake) in
  emit (Log ("train/discriminator/" ++ key) (PyTensor loss_disc) (step_flags false)) ;;
  ret (py_add_tensor loss_disc_all loss_disc).

(** Lines 163-197: the discriminators' loss, backward pass and optimizer
    step. *)
Definition discriminator_phase (audio2 fake_audio2 : tensor F) : M F unit :=
  emit (ZeroGrad Disc) ;;
  loss_disc_all <- for_each (discriminators self) (disc_body audio2 fake_audio2) (PyInt 0) ;;
  loss_disc_all <- lift (py_div_int loss_disc_all (Z.of_nat (List.length (discriminators self)))) ;;
  manual_backward loss_disc_all ;;
  emit (OptimizerStep Disc) ;;
  emit (Log "train/discriminator/all" loss_disc_all (step_flags true)).

(** [training_step(self, batch, batch_idx)]; [u] is the raw draw the random
    generator hands to [torch.randint]. *)
Definition training_step (b : batch F) (u : Z) : M F unit :=
  '(audio1, fake_audio1, audio_mask) <- masked_forward b ;;
  loss_stft <- monitored_losses audio1 fake_audio1 ;;
  '(audio2, fake_audio2, _) <- crop u audio1 fake_audio1 audio_mask ;;
  generator_phase loss_stft fake_audio2 ;;
  discriminator_phase audio2 fake_audio2 ;;
  emit (SchedulerStep Gen) ;;
  emit (SchedulerStep Disc).

(** [validation_step(self, batch, batch_idx)] *)
Definition validation_step (b : batch F) : M F unit :=
  let y0 := audio b in
  mask <- lift (index_colon_none_colon (sequence_mask self (lengths b))) ;;
  let y_mask := to_float32 mask in
  squeezed <- lift (squeeze1 y0) ;;
  let input_mels := mel_transforms_input self squeezed in
  let y_g_hat0 := generator self input_mels in
  py_assert (if shape_eq_dec (shape y_g_hat0) (shape y0) then true else false) ;;
  y <- lift (tmap2 fmul y0 y_mask) ;;
  y_g_hat <- lift (tmap2 fmul y_g_hat0 y_mask) ;;
  y_sq <- lift (squeeze1 y) ;;
  let y_mel := mel_transforms_loss self y_sq in
  y_g_hat_sq <- lift (squeeze1 y_g_hat) ;;
  let y_g_hat_mel := mel_transforms_loss self y_g_hat_sq in
  loss_mel <- lift (l1_loss y_mel y_g_hat_mel) ;;
  emit (Log "val/metrics/mel" (PyTensor loss_mel) epoch_flags) ;;
  emit (ReportValMetrics y_g_hat y (lengths b)).

End Steps.

(** * Static loss utilities *)

Section Losses.
Context {F : Type} `{Scalar F}.

(** [zip(xs, ys)]: stops at the end of the shorter list. *)
Fixpoint zip {A B} (xs : list A) (ys : list B) : list (A * B) :=
  match xs, ys with
  | x :: xs', y :: ys' => (x, y) :: zip xs' ys'
  | _, _ => []
  end.

(** The term one pair of outputs adds to the total of [discriminator_loss]. *)
Definition pair_loss (p : tensor F * tensor F) : F :=
  fadd (mean_sq_one_minus (fst p)) (mean_sq (snd p)).

(** [discriminator_loss(disc_real_outputs, disc_generated_outputs)];
    [r_losses] and [g_losses] hold the [.item()] of each term. *)
Definition discriminator_loss (disc_real_outputs disc_generated_outputs : list (tensor F))
  : pynum F * list F * list F :=
  fold_left
    (fun '(loss, r_losses, g_losses) '(dr, dg) =>
       let r_loss := mean_sq_one_minus dr in
       let g_loss := mean_sq dg in
       (py_add_tensor loss (fadd r_loss g_loss), r_losses ++ [r_loss], g_losses ++ [g_loss]))
    (zip disc_real_outputs disc_generated_outputs)
    (PyInt 0, [], []).

(** [generator_loss(disc_outputs)] *)
Definition generator_loss (disc_outputs : list (tensor F)) : pynum F * list F :=
  fold_left
    (fun '(loss, losses) dg =>
       let temp := mean_sq_one_minus dg in
       (py_add_tensor loss temp, losses ++ [temp]))
    disc_outputs
    (PyInt 0, []).

(** The inner loop of [feature_matching_loss]: appends one [F.l1_loss] per
    pair of feature maps. *)
Fixpoint fm_inner (pairs : list (tensor F * tensor F)) (losses : list F) : result (list F) :=
  match pairs with
  | [] => inr losses
  | (rl, gl) :: rest => rbind (l1_loss rl gl) (fun l => fm_inner rest (losses ++ [l]))
  end.

(** The outer loop of [feature_matching_loss]. *)
Fixpoint fm_outer (pairs : list (list (tensor F) * list (tensor F))) (losses : list F)
  : result (list F) :=
  match pairs with
  | [] => inr losses
  | (dr, dg) :: rest => rbind (fm_inner (zip dr dg) losses) (fm_outer rest)
  end.

(** Python's [sum(losses)]: starts from the [int] [0]. *)
Definition py_sum (losses : list F) : pynum F := fold_left py_add_tensor losses (PyInt 0).

(** [feature_matching_loss(disc_real_outputs, disc_generated_outputs)] *)
Definition feature_matching_loss
  (disc_real_outputs disc_generated_outputs : list (list (tensor F))) : result (pynum F) :=
  rbind (fm_outer (zip disc_real_outputs disc_generated_outputs) [])
        (fun losses => inr (py_sum losses)).

End Losses.

(** * Reference definitions *)

Section Reference.
Context {F : Type} `{Scalar F}.
Variable self : HiFiGANModel F.

(** The least-squares adversarial loss of one discriminator on [fake]:
    [mean((1 - score_fake)^2)]. *)
Definition adv_loss (fake : tensor F) (item : string * discriminator F) : F :=
  tmean (tmap (fun s => fmul (fsub (of_int 1) s) (fsub (of_int 1) s)) (fst (snd item fake))).

(** The adversarial losses accumulated in ensemble order and divided by the
    number of discriminators. *)
Definition mean_adv_loss (fake : tensor F) : F :=
  fdiv (fold_left fadd (map (adv_loss fake) (discriminators self)) (of_int 0))
       (of_int (Z.of_nat (List.length (discriminators self)))).

(** [loss_stft * 2.5 + mean_adv_loss] *)
Definition total_generator_loss (loss_stft mean_adv : F) : F :=
  fadd (fmul loss_stft (of_dyadic 5 (-1))) mean_adv.

(** The log entry of one turn of the adversarial-loss loop. *)
Definition adv_log (fake : tensor F) (item : string * discriminator F) : event F :=
  Log ("train/generator/adv_" ++ fst item) (PyTensor (adv_loss fake item)) (step_flags false).

(** The least-squares loss of one discriminator:
    [mean((score_real - 1)^2) + mean(score_fake^2)]. *)
Definition disc_loss (real fake : tensor F) (item : string * discriminator F) : F :=
  fadd (tmean (tmap (fun s => fmul (fsub s (of_int 1)) (fsub s (of_int 1))) (fst (snd item real))))
       (tmean (tmap (fun s => fmul s s) (fst (snd item fake)))).

Definition disc_log (real fake : tensor F) (item : string * discriminator F) : event F :=
  Log ("train/discriminator/" ++ fst item) (PyTensor (disc_loss real fake item)) (step_flags false).

(** The discriminator losses accumulated in ensemble order and divided by
    the number of discriminators. *)
Definition mean_disc_loss (real fake : tensor F) : F :=
  fdiv (fold_left fadd (map (disc_loss real fake) (discriminators self)) (of_int 0))
       (of_int (Z.of_nat (List.length (discriminators self)))).

(** The events of an uninterrupted generator phase. *)
Definition generator_events (loss_stft : F) (fake2 : tensor F) : list (event F) :=
  map (adv_log fake2) (discriminators self)
    ++ [ManualBackward (total_generator_loss loss_stft (mean_adv_loss fake2));
        OptimizerStep Gen].

(** The events of an uninterrupted discriminator phase. *)
Definition discriminator_events (audio2 fake2 : tensor F) : list (event F) :=
  ZeroGrad Disc :: map (disc_log audio2 fake2) (discriminators self)
    ++ [ManualBackward (mean_disc_loss audio2 fake2);
        OptimizerStep Disc;
        Log "train/discriminator/all" (PyTensor (mean_disc_loss audio2 fake2))
            (step_flags true)].


End Reference.

(** The update events of a complete training step. *)
Definition full_updates {F} : list (event F) :=
  [OptimizerStep Gen; OptimizerStep Disc; SchedulerStep Gen; SchedulerStep Disc].

(** * Comparing binary32 feature maps *)

Section FeatureMaps.
Import Binary32.

(** Two feature maps that compare equal element by element. *)
Definition elementwise_equal (x y : tensor float32) : Prop :=
  shape x = shape y /\ Forall2 (fun a b => eqb a b = true) (data x) (data y).

(** A well-formed feature map with at least one entry, all entries
    finite. *)
Definition finite_nonempty (x : tensor float32) : Prop :=
  wf x /\ data x <> [] /\ Forall (fun a => is_finite a = true) (data x).

(** A returned number that compares equal to zero. *)
Definition is_zero_num (v : pynum float32) : bool :=
  match v with
  | PyInt n => (n =? 0)%Z
  | PyFloat x => eqb x zero
  | PyTensor x => eqb x zero
  end.

End FeatureMaps.

(** * A small concrete model *)

Module Demo.

Import Binary32.

(** Modelled from the spec: [fish_vocoder.utils.mask.sequence_mask] is not
    among the sources.  Given the valid lengths it produces a boolean mask
    over the time axis, true exactly at the positions below the length of
    its row; the time axis is as long as the longest row. *)
Definition sequence_mask (lengths : list Z) : tensor bool :=
  let time := Z.to_nat (fold_right Z.max 0%Z lengths) in
  mkTensor [List.length lengths; time]
           (flat_map (fun l => map (fun p => (Z.of_nat p <? l)%Z) (seq 0 time)) lengths).

(** A generator that halves its input, and restores the channel axis where
    [squeeze(1)] removed it. *)
Definition generator (mels : tensor float32) : tensor float32 :=
  let halved := map (fun x => mul x (of_dyadic 1 (-1))) (data mels) in
  match shape mels with
  | [d0; d1] => mkTensor [d0; 1; d1] halved
  | s => mkTensor s halved
  end.

(** A generator that forgets the channel axis. *)
Definition bad_generator (mels : tensor float32) : tensor float32 := mels.

Definition disc_a : discriminator float32 := fun t => (t, [t]).
Definition disc_b : discriminator float32 :=
  fun t => (tmap (fun x => sub x (of_dyadic 1 0)) t, []).

Definition stft (fake real : tensor float32) : float32 * float32 :=
  match l1_loss fake real with
  | inr l => (l, of_dyadic 1 (-2))
  | inl _ => (nan, nan)
  end.

Definition model (crop : option Z) : HiFiGANModel float32 :=
  mkModel (fun t => t) (fun t => t) generator
          [("mpd"%string, disc_a); ("mrd"%string, disc_b)]
          stft sequence_mask crop.

(** The same model with a generator that breaks the shape contract. *)
Definition bad_model : HiFiGANModel float32 :=
  mkModel (fun t => t) (fun t => t) bad_generator
          [("mpd"%string, disc_a); ("mrd"%string, disc_b)]
          stft sequence_mask None.

(** The same model without any discriminator. *)
Definition lonely_model : HiFiGANModel float32 :=
  mkModel (fun t => t) (fun t => t) generator [] stft sequence_mask None.


Definition f32 (n : Z) : float32 := of_dyadic n 0.

(** One sequence of four samples, all valid. *)
Definition batch1 : batch float32 :=
  mkBatch (mkTensor [1; 1; 4] [f32 1; f32 2; f32 3; f32 4]) [4%Z].

(** Two sequences of four samples, the second one padded. *)
Definition batch2 : batch float32 :=
  mkBatch (mkTensor [2; 1; 4] [f32 1; f32 2; f32 3; f32 4; f32 5; f32 6; f32 7; f32 8])
          [4%Z; 2%Z].

(** Two channels: outside the batch contract. *)
Definition batch_stereo : batch float32 :=
  mkBatch (mkTensor [1; 2; 4] [f32 1; f32 2; f32 3; f32 4; f32 5; f32 6; f32 7; f32 8])
          [4%Z].

End Demo.

(** * Observations on traces *)

(** The keys a trace has logged, in order. *)
Definition log_keys {F} (tr : list (event F)) : list string :=
  flat_map (fun ev => match ev with Log key _ _ => [key] | _ => [] end) tr.

(** The values a trace has logged, in order. *)
Definition log_values {F} (tr : list (event F)) : list (pynum F) :=
  flat_map (fun ev => match ev with Log _ value _ => [value] | _ => [] end) tr.

(** The keys of a completed step over discriminators of the given names. *)
Definition step_keys (names : list string) : list string :=
  ["train/generator/stft"%string; "train/generator/mel"%string]
    ++ map (String.append "train/generator/adv_") names
    ++ map (String.append "train/discriminator/") names
    ++ ["train/discriminator/all"%string].

(** The events of the optimisation protocol: gradient resets, backward
    passes, optimizer steps and scheduler steps. *)
Definition is_protocol {F} (ev : event F) : bool :=
  match ev with
  | ZeroGrad _ | ManualBackward _ | OptimizerStep _ | SchedulerStep _ => true
  | _ => false
  end.

Definition protocol {F} (tr : list (event F)) : list (event F) := filter is_protocol tr.

(** Entering and leaving [torch.no_grad()]. *)
Definition is_scope {F} (ev : event F) : bool :=
  match ev with
  | NoGradEnter | NoGradExit => true
  | _ => false
  end.

Definition scopes {F} (tr : list (event F)) : list (event F) := filter is_scope tr.

(** * Sequences of steps *)

(** A call of one of the two steps by the training loop. *)
Inductive call (F : Type) : Type :=
| Train (b : batch F) (u : Z)
| Validate (b : batch F).

Arguments Train {F} b u.
Arguments Validate {F} b.

Section History.
Context {F : Type} `{Scalar F}.
Variable self : HiFiGANModel F.

Definition run_call (c : call F) : M F unit :=
  match c with
  | Train b u => training_step self b u
  | Validate b => validation_step self b
  end.

(** The events of a sequence of calls, whether they returned or raised. *)
Definition history (calls : list (call F)) : list (event F) :=
  flat_map (fun c => fst (run_call c)) calls.

(** The scores of the ensemble on a waveform, in ensemble order. *)
Definition scores (wave : tensor F) : list (tensor F) :=
  map (fun item : string * discriminator F => fst (snd item wave)) (discriminators self).

(** Whether a call returned. *)
Definition returned (c : call F) : bool :=
  match snd (run_call c) with
  | inr _ => true
  | inl _ => false
  end.

(** The training calls of a run that returned. *)
Definition completed_training (calls : list (call F)) : nat :=
  List.length (filter (fun c => match c with
                                | Train _ _ => returned c
                                | Validate _ => false
                                end) calls).

(** The pairs of feature maps [feature_matching_loss] compares. *)
Definition compared_maps (reals gens : list (list (tensor F))) : list (tensor F * tensor F) :=
  flat_map (fun p => zip (fst p) (snd p)) (zip reals gens).

End History.

Section Flattened.
Context {F : Type} `{Scalar F}.

(** [F.l1_loss] of every pair in turn, stopping at the first that raises. *)
Fixpoint l1_all (pairs : list (tensor F * tensor F)) : result (list F) :=
  match pairs with
  | [] => inr []
  | (rl, gl) :: rest =>
      rbind (l1_loss rl gl) (fun l => rbind (l1_all rest) (fun ls => inr (l :: ls)))
  end.

(** The total of a loss utility over the given terms: the [int] 0 it starts
    from when there is no term, otherwise a tensor. *)
Definition total_of (terms : list F) : pynum F :=
  match terms with
  | [] => PyInt 0
  | _ :: _ => PyTensor (fold_left fadd terms (of_int 0))
  end.

End Flattened.

(** * Signs in binary32 *)

Section Signs.
Import Binary32.

(** Not negative: the sign bit is clear, or the number is a NaN. *)
Definition nonneg (x : float32) : bool :=
  match x with
  | S754_nan => true
  | S754_zero s | S754_infinity s | S754_finite s _ _ => negb s
  end.

Definition nonneg_num (v : pynum float32) : bool :=
  match v with
  | PyInt n => (0 <=? n)%Z
  | PyFloat x | PyTensor x => nonneg x
  end.

End Signs.


(** * The model at work *)

Section Examples.
Import Binary32.

Example broadcast_channels :
  tmap2 Nat.mul (mkTensor [1; 2; 3] [1; 2; 3; 4; 5; 6]) (mkTensor [1; 1; 3] [10; 20; 30])
  = inr (mkTensor [1; 2; 3] [10; 40; 90; 40; 100; 180]).
Proof. reflexivity. Qed.

Example broadcast_time :
  tmap2 Nat.mul (mkTensor [2; 1; 3] [1; 2; 3; 4; 5; 6]) (mkTensor [2; 1; 1] [10; 100])
  = inr (mkTensor [2; 1; 3] [10; 20; 30; 400; 500; 600]).
Proof. reflexivity. Qed.

Example broadcast_mismatch :
  tmap2 Nat.mul (mkTensor [2; 3] [1; 2; 3; 4; 5; 6]) (mkTensor [2; 2] [1; 2; 3; 4])
  = inl RuntimeError.
Proof. reflexivity. Qed.

Example slice_window :
  slice_last 1 3 (mkTensor [1; 2; 4] [1; 2; 3; 4; 5; 6; 7; 8])
  = inr (mkTensor [1; 2; 2] [2; 3; 6; 7]).
Proof. reflexivity. Qed.

Example slice_negative_bound :
  slice_last 0 (-1) (mkTensor [2; 4] [1; 2; 3; 4; 5; 6; 7; 8])
  = inr (mkTensor [2; 3] [1; 2; 3; 5; 6; 7]).
Proof. reflexivity. Qed.

Example mask_of_lengths :
  Demo.sequence_mask [4%Z; 2%Z]
  = mkTensor [2; 4] [true; true; true; true; true; true; false; false].
Proof. reflexivity. Qed.

(** [torch.randint]: a draw inside the range, a draw reduced into it, an
    empty range, and a bound beyond [int64]. *)
Example randint_draws :
  randint 0 3 2 = inr 2%Z
  /\ randint 0 3 7 = inr 1%Z
  /\ randint 0 0 7 = inl RuntimeError
  /\ randint 0 (int64_max + 1) 7 = inl ValueError
  /\ randint 0 int64_max 7 = inr 7%Z.
Proof. repeat split; reflexivity. Qed.

(** A crop length of [-2^63] leaves [torch.randint] a range it cannot
    unpack. *)
Example crop_length_overflow :
  training_step (Demo.model (Some int64_min)) Demo.batch2 0%Z
  = ([ZeroGrad Gen;
      Log "train/generator/stft" (PyTensor (S754_finite false 13107200 (-23)))
          (step_flags true);
      NoGradEnter;
      Log "train/generator/mel" (PyTensor (S754_finite false 11010048 (-23)))
          (step_flags true);
      NoGradExit],
     inl ValueError).
Proof. vm_compute. reflexivity. Qed.

(** Rounding to nearest even: 2^24 + 1 is not a binary32 number. *)
Example binary32_rounds :
  add (Demo.f32 16777216) (Demo.f32 1) = Demo.f32 16777216
  /\ add (Demo.f32 2) (Demo.f32 16777216) = Demo.f32 16777218.
Proof. split; vm_compute; reflexivity. Qed.

(** A real score of ones and a fake score of zeros: a discriminator loss
    of 0 and an adversarial loss of 1. *)
Example ideal_discriminator :
  let ones := vector [Demo.f32 1; Demo.f32 1; Demo.f32 1] in
  let zeros := vector [Demo.f32 0; Demo.f32 0; Demo.f32 0] in
  discriminator_loss [ones] [zeros] = (PyTensor zero, [zero], [zero])
  /\ generator_loss [zeros] = (PyTensor (Demo.f32 1), [Demo.f32 1]).
Proof. split; vm_compute; reflexivity. Qed.

(** Two sequences of lengths 4 and 2, no crop: the step runs through. *)
Example uncropped_step :
  snd (training_step (Demo.model None) Demo.batch2 0%Z) = inr tt
  /\ updates (fst (training_step (Demo.model None) Demo.batch2 0%Z)) = full_updates
  /\ backwards (fst (training_step (Demo.model None) Demo.batch2 0%Z))
     = [S754_finite false 11141120 (-21); S754_finite false 8421376 (-20)].
Proof. repeat split; vm_compute; reflexivity. Qed.

(** Stereo audio passes the first assertion and fails the second. *)
Example stereo_step :
  training_step (Demo.model (Some 2%Z)) Demo.batch_stereo 1%Z
  = ([ZeroGrad Gen;
      Log "train/generator/stft" (PyTensor (S754_finite false 10485760 (-22)))
          (step_flags true);
      NoGradEnter;
      Log "train/generator/mel" (PyTensor (S754_finite false 9437184 (-22)))
          (step_flags true);
      NoGradExit],
     inl AssertionError).
Proof. vm_compute. reflexivity. Qed.

Example validation_events :
  map is_report (fst (validation_step (Demo.model None) Demo.batch2)) = [true; true]
  /\ snd (validation_step (Demo.model None) Demo.batch2) = inr tt.
Proof. split; vm_compute; reflexivity. Qed.

End Examples.

(** * The step monad *)

Section MonadLemmas.
Context {F : Type}.

Lemma bind_inr {A B} (m : M F A) (k : A -> M F B) tr a :
  m = (tr, inr a) -> bind m k = (tr ++ fst (k a), snd (k a)).
Proof. intros ->. unfold bind. destruct (k a). reflexivity. Qed.

Lemma bind_inl {A B} (m : M F A) (k : A -> M F B) tr e :
  m = (tr, inl e) -> bind m k = (tr, inl e).
Proof. intros ->. reflexivity. Qed.

Lemma bind_lift {A B} (r : result A) (k : A -> M F B) :
  bind (lift r) k = match r with inl e => ([], inl e) | inr a => k a end.
Proof. destruct r as [e | a]; simpl; [reflexivity | destruct (k a); reflexivity]. Qed.

Lemma bind_emit {B} (ev : event F) (k : unit -> M F B) :
  bind (emit ev) k = (ev :: fst (k tt), snd (k tt)).
Proof. unfold bind, emit. destruct (k tt). reflexivity. Qed.

Lemma bind_ret {A B} (a : A) (k : A -> M F B) : bind (ret a) k = k a.
Proof. unfold bind, ret. destruct (k a). reflexivity. Qed.

Lemma bind_assert {B} (c : bool) (k : unit -> M F B) :
  bind (py_assert c) k = if c then k tt else ([], inl AssertionError).
Proof. destruct c; simpl; [destruct (k tt); reflexivity | reflexivity]. Qed.

Lemma updates_app (a b : list (event F)) : updates (a ++ b) = updates a ++ updates b.
Proof. apply filter_app. Qed.

Lemma backwards_app (a b : list (event F)) : backwards (a ++ b) = backwards a ++ backwards b.
Proof. apply flat_map_app. Qed.

End MonadLemmas.

(** * The two phases of a training step *)

Section Phases.
Context {F : Type} `{Scalar F}.
Variable self : HiFiGANModel F.

Lemma fold_py_tensor (l : list F) (x : F) :
  fold_left py_add_tensor l (PyTensor x) = PyTensor (fold_left fadd l x).
Proof. revert x. induction l as [| y l IH]; intros x; simpl; [reflexivity | apply IH]. Qed.

Lemma fold_py_int (l : list F) :
  l <> [] -> fold_left py_add_tensor l (PyInt 0) = PyTensor (fold_left fadd l (of_int 0)).
Proof.
  destruct l as [| y l]; [congruence | intros _]. simpl.
  unfold py_add_tensor at 2. simpl. apply fold_py_tensor.
Qed.

Lemma adv_loop (fake : tensor F) (ds : list (string * discriminator F)) (acc : pynum F) :
  for_each ds (adv_body fake) acc
  = (map (adv_log fake) ds, inr (fold_left py_add_tensor (map (adv_loss fake) ds) acc)).
Proof.
  revert acc. induction ds as [| [key disc] ds IH]; intros acc; [reflexivity |].
  cbn [for_each]. unfold adv_body at 1. rewrite bind_emit.
  cbn [ret fst snd bind]. rewrite IH. reflexivity.
Qed.

Lemma disc_loop (real fake : tensor F) (ds : list (string * discriminator F)) (acc : pynum F) :
  for_each ds (disc_body real fake) acc
  = (map (disc_log real fake) ds,
     inr (fold_left py_add_tensor (map (disc_loss real fake) ds) acc)).
Proof.
  revert acc. induction ds as [| [key disc] ds IH]; intros acc; [reflexivity |].
  cbn [for_each]. unfold disc_body at 1. rewrite bind_emit.
  cbn [ret fst snd bind]. rewrite IH. reflexivity.
Qed.

(** The generator phase fails on its division when the ensemble is empty,
    and otherwise logs, backpropagates and steps. *)
Lemma generator_phase_eq (loss_stft : F) (fake : tensor F) :
  generator_phase self loss_stft fake
  = match discriminators self with
    | [] => ([], inl ZeroDivisionError)
    | _ :: _ =>
        (map (adv_log fake) (discriminators self)
           ++ [ManualBackward (total_generator_loss loss_stft (mean_adv_loss self fake));
               OptimizerStep Gen],
         inr tt)
    end.
Proof.
  unfold generator_phase. rewrite adv_loop.
  destruct (discriminators self) as [| d ds] eqn:E; [reflexivity |].
  rewrite fold_py_int by (simpl; congruence).
  unfold bind at 1. cbn [py_div_int]. rewrite bind_lift.
  unfold manual_backward. rewrite bind_emit. cbn [emit fst snd py_value].
  unfold total_generator_loss, mean_adv_loss. rewrite E. reflexivity.
Qed.

Lemma discriminator_phase_eq (real fake : tensor F) :
  discriminator_phase self real fake
  = match discriminators self with
    | [] => ([ZeroGrad Disc], inl ZeroDivisionError)
    | _ :: _ =>
        (ZeroGrad Disc :: map (disc_log real fake) (discriminators self)
           ++ [ManualBackward (mean_disc_loss self real fake);
               OptimizerStep Disc;
               Log "train/discriminator/all" (PyTensor (mean_disc_loss self real fake))
                   (step_flags true)],
         inr tt)
    end.
Proof.
  unfold discriminator_phase. rewrite bind_emit. rewrite disc_loop.
  destruct (discriminators self) as [| d ds] eqn:E; [reflexivity |].
  rewrite fold_py_int by (simpl; congruence).
  cbn [fst snd]. unfold bind at 1. cbn [py_div_int]. rewrite bind_lift.
  unfold manual_backward. rewrite !bind_emit. cbn [emit fst snd py_value].
  unfold mean_disc_loss. rewrite E. reflexivity.
Qed.

End Phases.

(** * The preamble of a training step *)

Ltac case_scrutinee :=
  match goal with
  | |- context [match ?x with _ => _ end] =>
      lazymatch x with
      | context [match _ with _ => _ end] => fail
      | _ => destruct x eqn:?
      end
  end.

Ltac run_step :=
  repeat (rewrite ?bind_lift, ?bind_emit, ?bind_assert, ?bind_ret; cbn [fst snd]).

Section Preamble.
Context {F : Type} `{Scalar F}.
Variable self : HiFiGANModel F.

(** [masked_forward] without the monad: where it can stop, and with what
    trace. *)
Lemma masked_forward_eq (b : batch F) :
  masked_forward self b
  = match index_colon_none_colon (sequence_mask self (lengths b)) with
    | inl e => ([], inl e)
    | inr mask =>
        match squeeze1 (audio b) with
        | inl e => ([ZeroGrad Gen], inl e)
        | inr sq =>
            let fake := generator self (mel_transforms_input self sq) in
            if shape_eq_dec (shape fake) (shape (audio b)) then
              match tmap2 fmul (audio b) (to_float32 mask) with
              | inl e => ([ZeroGrad Gen], inl e)
              | inr audio1 =>
                  match tmap2 fmul fake (to_float32 mask) with
                  | inl e => ([ZeroGrad Gen], inl e)
                  | inr fake1 => ([ZeroGrad Gen], inr (audio1, fake1, to_float32 mask))
                  end
              end
            else ([ZeroGrad Gen], inl AssertionError)
        end
    end.
Proof.
  unfold masked_forward. run_step.
  repeat (case_scrutinee; run_step; try reflexivity).
Qed.

Lemma monitored_losses_eq (audio1 fake1 : tensor F) :
  monitored_losses self audio1 fake1
  = match squeeze1 fake1 with
    | inl e => ([], inl e)
    | inr fake_sq =>
        match squeeze1 audio1 with
        | inl e => ([], inl e)
        | inr audio_sq =>
            let p := multi_resolution_stft_loss self fake_sq audio_sq in
            let loss_stft := fadd (fst p) (snd p) in
            let log_stft := Log "train/generator/stft" (PyTensor loss_stft) (step_flags true) in
            match l1_loss (mel_transforms_loss self audio_sq) (mel_transforms_loss self fake_sq) with
            | inl e => ([log_stft; NoGradEnter; NoGradExit], inl e)
            | inr loss_mel =>
                ([log_stft; NoGradEnter;
                  Log "train/generator/mel" (PyTensor loss_mel) (step_flags true);
                  NoGradExit],
                 inr loss_stft)
            end
        end
    end.
Proof.
  unfold monitored_losses. run_step.
  destruct (squeeze1 fake1) as [e | fake_sq]; [reflexivity |].
  run_step.
  destruct (squeeze1 audio1) as [e | audio_sq]; [reflexivity |].
  destruct (multi_resolution_stft_loss self fake_sq audio_sq) as [sc mag].
  cbn [fst snd]. run_step. unfold no_grad. run_step.
  destruct (l1_loss _ _) as [e | loss_mel]; run_step; reflexivity.
Qed.

(** The crop performs no event. *)
Lemma crop_trace (u : Z) (audio1 fake1 mask : tensor F) :
  fst (crop self u audio1 fake1 mask) = [].
Proof.
  unfold crop. destruct (crop_length self) as [c |]; [| reflexivity].
  run_step.
  repeat (case_scrutinee; run_step; try reflexivity).
Qed.

End Preamble.

(** * The shape of a training step *)

Section Silent.
Context {F : Type}.

Lemma silent_nil : silent (@nil (event F)).
Proof. split; reflexivity. Qed.

Lemma silent_app (a b : list (event F)) : silent a -> silent b -> silent (a ++ b).
Proof.
  intros [Ha Ha'] [Hb Hb']. split.
  - rewrite updates_app, Ha, Hb. reflexivity.
  - rewrite backwards_app, Ha', Hb'. reflexivity.
Qed.

Lemma silent_map {X} (f : X -> event F) (l : list X) :
  (forall x, silent [f x]) -> silent (map f l).
Proof.
  intros Hf. induction l as [| x l IH]; [apply silent_nil |].
  change (map f (x :: l)) with ([f x] ++ map f l). apply silent_app; auto.
Qed.

End Silent.

Section Shape.
Context {F : Type} `{Scalar F}.
Variable self : HiFiGANModel F.

(** A training step, phase by phase: it stops at the first phase that
    raises, and an empty ensemble stops it at the generator's division. *)
Lemma training_step_eq (b : batch F) (u : Z) :
  training_step self b u
  = match masked_forward self b with
    | (tr1, inl e) => (tr1, inl e)
    | (tr1, inr (audio1, fake1, mask)) =>
        match monitored_losses self audio1 fake1 with
        | (tr2, inl e) => (tr1 ++ tr2, inl e)
        | (tr2, inr loss_stft) =>
            match crop self u audio1 fake1 mask with
            | (tr3, inl e) => (tr1 ++ tr2 ++ tr3, inl e)
            | (tr3, inr (audio2, fake2, _)) =>
                match discriminators self with
                | [] => (tr1 ++ tr2 ++ tr3, inl ZeroDivisionError)
                | _ :: _ =>
                    (tr1 ++ tr2 ++ tr3
                       ++ generator_events self loss_stft fake2
                       ++ discriminator_events self audio2 fake2
                       ++ [SchedulerStep Gen; SchedulerStep Disc],
                     inr tt)
                end
            end
        end
    end.
Proof.
  unfold training_step.
  destruct (masked_forward self b) as [tr1 [e | [[audio1 fake1] mask]]]; [reflexivity |].
  cbn [bind].
  destruct (monitored_losses self audio1 fake1) as [tr2 [e | loss_stft]]; [reflexivity |].
  cbn [bind].
  destruct (crop self u audio1 fake1 mask) as [tr3 [e | [[audio2 fake2] mask2]]]; [reflexivity |].
  cbn [bind].
  rewrite generator_phase_eq, discriminator_phase_eq.
  unfold generator_events, discriminator_events.
  destruct (discriminators self) as [| d ds].
  - cbn [bind]. rewrite !app_nil_r. reflexivity.
  - cbn [bind emit]. repeat rewrite <- app_assoc. reflexivity.
Qed.

Lemma masked_forward_silent (b : batch F) : silent (fst (masked_forward self b)).
Proof.
  rewrite masked_forward_eq.
  cbv zeta. repeat (case_scrutinee; cbn [fst]); split; reflexivity.
Qed.

Lemma monitored_losses_silent (a f : tensor F) : silent (fst (monitored_losses self a f)).
Proof.
  rewrite monitored_losses_eq.
  cbv zeta. repeat (case_scrutinee; cbn [fst]); split; reflexivity.
Qed.

Lemma crop_silent (u : Z) (a f k : tensor F) : silent (fst (crop self u a f k)).
Proof. rewrite crop_trace. apply silent_nil. Qed.

Lemma adv_logs_silent (fake : tensor F) (ds : list (string * discriminator F)) :
  silent (map (adv_log fake) ds).
Proof. apply silent_map. intros x. split; reflexivity. Qed.

Lemma disc_logs_silent (real fake : tensor F) (ds : list (string * discriminator F)) :
  silent (map (disc_log real fake) ds).
Proof. apply silent_map. intros x. split; reflexivity. Qed.

End Shape.

(** * Claims about the steps *)

Section StepClaims.
Context {F : Type} `{Scalar F}.
Variable self : HiFiGANModel F.

Lemma generator_events_updates (ls : F) (fake : tensor F) :
  updates (generator_events self ls fake) = [OptimizerStep Gen].
Proof.
  unfold generator_events. rewrite updates_app.
  rewrite (proj1 (adv_logs_silent fake _)). reflexivity.
Qed.

Lemma discriminator_events_updates (real fake : tensor F) :
  updates (discriminator_events self real fake) = [OptimizerStep Disc].
Proof.
  unfold discriminator_events.
  change (ZeroGrad Disc :: ?l ++ ?r) with ([ZeroGrad Disc] ++ l ++ r).
  rewrite !updates_app. rewrite (proj1 (disc_logs_silent real fake _)). reflexivity.
Qed.

Lemma generator_events_backwards (ls : F) (fake : tensor F) :
  backwards (generator_events self ls fake)
  = [total_generator_loss ls (mean_adv_loss self fake)].
Proof.
  unfold generator_events. rewrite backwards_app.
  rewrite (proj2 (adv_logs_silent fake _)). reflexivity.
Qed.

Lemma discriminator_events_backwards (real fake : tensor F) :
  backwards (discriminator_events self real fake) = [mean_disc_loss self real fake].
Proof.
  unfold discriminator_events.
  change (ZeroGrad Disc :: ?l ++ ?r) with ([ZeroGrad Disc] ++ l ++ r).
  rewrite !backwards_app. rewrite (proj2 (disc_logs_silent real fake _)). reflexivity.
Qed.

(** What a training step leaves behind, by outcome: a completed step has
    made exactly the four updates and the two backward passes; a step that
    raised has made none. *)
Lemma training_step_outcomes (b : batch F) (u : Z) :
  (snd (training_step self b u) = inr tt
   /\ updates (fst (training_step self b u)) = full_updates
   /\ discriminators self <> [])
  \/ ((exists e, snd (training_step self b u) = inl e)
      /\ silent (fst (training_step self b u))).
Proof.
  rewrite training_step_eq.
  pose proof (masked_forward_silent self b) as S1.
  destruct (masked_forward self b) as [tr1 [e | [[audio1 fake1] mask]]]; cbn [fst snd] in *.
  { right. split; [eauto | exact S1]. }
  pose proof (monitored_losses_silent self audio1 fake1) as S2.
  destruct (monitored_losses self audio1 fake1) as [tr2 [e | loss_stft]]; cbn [fst snd] in *.
  { right. split; [eauto | apply silent_app; assumption]. }
  pose proof (crop_silent self u audio1 fake1 mask) as S3.
  destruct (crop self u audio1 fake1 mask) as [tr3 [e | [[audio2 fake2] mask2]]];
    cbn [fst snd] in *.
  { right. split; [eauto | repeat apply silent_app; assumption]. }
  destruct (discriminators self) as [| d ds] eqn:E; cbn [fst snd].
  { right. split; [eauto | repeat apply silent_app; assumption]. }
  left. split; [reflexivity | split; [| discriminate]].
  rewrite !updates_app, (proj1 S1), (proj1 S2), (proj1 S3).
  rewrite generator_events_updates, discriminator_events_updates. reflexivity.
Qed.

(** C2: in every training step the generator's optimizer steps before the
    discriminators' optimizer, and both schedulers step exactly once after
    both optimizer steps, with no condition in between: a step that
    completes has made exactly the updates [optimizer G; optimizer D;
    scheduler G; scheduler D], in this order, and a step that raises has made
    no update at all.  A step does complete, with these four updates,
    whenever the forward pass, the monitored losses and the crop return and
    the ensemble is not empty: nothing after the crop can raise then. *)
Theorem training_step_update_order (b : batch F) (u : Z) :
  ((snd (training_step self b u) = inr tt
    /\ updates (fst (training_step self b u))
       = [OptimizerStep Gen; OptimizerStep Disc; SchedulerStep Gen; SchedulerStep Disc])
   \/ ((exists e, snd (training_step self b u) = inl e)
       /\ updates (fst (training_step self b u)) = []))
  /\ (forall tr1 audio1 fake1 mask tr2 loss_stft tr3 cropped,
         masked_forward self b = (tr1, inr (audio1, fake1, mask)) ->
         monitored_losses self audio1 fake1 = (tr2, inr loss_stft) ->
         crop self u audio1 fake1 mask = (tr3, inr cropped) ->
         discriminators self <> [] ->
         snd (training_step self b u) = inr tt
         /\ updates (fst (training_step self b u))
            = [OptimizerStep Gen; OptimizerStep Disc; SchedulerStep Gen; SchedulerStep Disc]).
Proof.
  split.
  - destruct (training_step_outcomes b u) as [(Hok & Hup & _) | (Herr & Hs & _)].
    + left. split; assumption.
    + right. split; assumption.
  - intros tr1 audio1 fake1 mask tr2 loss_stft tr3 [[audio2 fake2] mask2] E1 E2 E3 Hne.
    assert (Hok : snd (training_step self b u) = inr tt).
    { rewrite training_step_eq, E1, E2, E3.
      destruct (discriminators self) as [| d ds]; [contradiction | reflexivity]. }
    split; [exact Hok |].
    destruct (training_step_outcomes b u) as [(_ & Hup & _) | ([e He] & _)].
    + exact Hup.
    + rewrite Hok in He. discriminate He.
Qed.

End StepClaims.

Section ValidationClaims.
Context {F : Type} `{Scalar F}.
Variable self : HiFiGANModel F.

Lemma validation_step_reports (b : batch F) :
  forallb is_report (fst (validation_step self b)) = true.
Proof.
  unfold validation_step. run_step.
  repeat (case_scrutinee; run_step; try reflexivity).
Qed.

Lemma reports_leave_optimizers (o : party) (tr : list (event F)) :
  forallb is_report tr = true ->
  optimizer_steps o tr = 0 /\ scheduler_steps o tr = 0 /\ updates tr = [] /\ backwards tr = [].
Proof.
  induction tr as [| ev tr IH]; [repeat split |].
  cbn [forallb]. intros Hev. apply andb_true_iff in Hev as [Hev Htr].
  specialize (IH Htr). destruct IH as (IH1 & IH2 & IH3 & IH4).
  unfold optimizer_steps, scheduler_steps, updates, backwards in *.
  destruct ev; try discriminate Hev; cbn [filter flat_map is_update app];
    repeat split; assumption.
Qed.

Lemma optimizer_steps_app (o : party) (a b : list (event F)) :
  optimizer_steps o (a ++ b) = optimizer_steps o a + optimizer_steps o b.
Proof. unfold optimizer_steps. rewrite filter_app, length_app. reflexivity. Qed.

Lemma scheduler_steps_app (o : party) (a b : list (event F)) :
  scheduler_steps o (a ++ b) = scheduler_steps o a + scheduler_steps o b.
Proof. unfold scheduler_steps. rewrite filter_app, length_app. reflexivity. Qed.

(** C6: for every batch, the validation step never calls an optimizer step
    or a scheduler step.  Its events are log entries and the call of
    [report_val_metrics] only, so after any history [before] the step counts
    of both optimizers and both schedulers are what they were. *)
Theorem validation_step_leaves_optimizers (b : batch F) (before : list (event F)) (o : party) :
  updates (fst (validation_step self b)) = []
  /\ forallb is_report (fst (validation_step self b)) = true
  /\ optimizer_steps o (before ++ fst (validation_step self b)) = optimizer_steps o before
  /\ scheduler_steps o (before ++ fst (validation_step self b)) = scheduler_steps o before.
Proof.
  pose proof (validation_step_reports b) as Hr.
  destruct (reports_leave_optimizers o _ Hr) as (Ho & Hs & Hu & _).
  repeat split; try assumption.
  - rewrite optimizer_steps_app, Ho. apply Nat.add_0_r.
  - rewrite scheduler_steps_app, Hs. apply Nat.add_0_r.
Qed.

End ValidationClaims.

Section Inversion.
Context {F : Type} `{Scalar F}.
Variable self : HiFiGANModel F.

Lemma masked_forward_inr (b : batch F) tr audio1 fake1 mask :
  masked_forward self b = (tr, inr (audio1, fake1, mask)) ->
  tr = [ZeroGrad Gen]
  /\ exists m sq,
      index_colon_none_colon (sequence_mask self (lengths b)) = inr m
      /\ mask = to_float32 m
      /\ squeeze1 (audio b) = inr sq
      /\ shape (generator self (mel_transforms_input self sq)) = shape (audio b)
      /\ tmap2 fmul (audio b) mask = inr audio1
      /\ tmap2 fmul (generator self (mel_transforms_input self sq)) mask = inr fake1.
Proof.
  rewrite masked_forward_eq.
  destruct (index_colon_none_colon _) as [e | m]; [discriminate |].
  destruct (squeeze1 (audio b)) as [e | sq]; [discriminate |].
  cbv zeta. destruct (shape_eq_dec _ _) as [Hs | Hs]; [| discriminate].
  destruct (tmap2 fmul (audio b) _) as [e | a1] eqn:Ea; [discriminate |].
  destruct (tmap2 fmul (generator self _) _) as [e | f1] eqn:Ef; [discriminate |].
  intros E. injection E as <- <- <- <-.
  split; [reflexivity |]. exists m, sq. repeat split; assumption.
Qed.

Lemma monitored_losses_inr (audio1 fake1 : tensor F) tr loss_stft :
  monitored_losses self audio1 fake1 = (tr, inr loss_stft) ->
  exists audio_sq fake_sq loss_mel,
    squeeze1 audio1 = inr audio_sq
    /\ squeeze1 fake1 = inr fake_sq
    /\ loss_stft = fadd (fst (multi_resolution_stft_loss self fake_sq audio_sq))
                        (snd (multi_resolution_stft_loss self fake_sq audio_sq))
    /\ l1_loss (mel_transforms_loss self audio_sq) (mel_transforms_loss self fake_sq)
       = inr loss_mel
    /\ tr = [Log "train/generator/stft" (PyTensor loss_stft) (step_flags true);
             NoGradEnter;
             Log "train/generator/mel" (PyTensor loss_mel) (step_flags true);
             NoGradExit].
Proof.
  rewrite monitored_losses_eq.
  destruct (squeeze1 fake1) as [e | fake_sq]; [discriminate |].
  destruct (squeeze1 audio1) as [e | audio_sq]; [discriminate |].
  cbv zeta. destruct (l1_loss _ _) as [e | loss_mel] eqn:El; [discriminate |].
  intros E. injection E as <- <-.
  exists audio_sq, fake_sq, loss_mel. repeat split. exact El.
Qed.

(** A crop that returns has either left the three tensors alone or cut all
    three with the same bounds. *)
Lemma crop_inr (u : Z) (audio1 fake1 mask : tensor F) tr audio2 fake2 mask2 :
  crop self u audio1 fake1 mask = (tr, inr (audio2, fake2, mask2)) ->
  (audio2 = audio1 /\ fake2 = fake1 /\ mask2 = mask
   /\ forall c time, crop_length self = Some c -> shape_at audio1 2 = inr time ->
                     (Z.of_nat time <= c)%Z)
  \/ exists c time last start,
      crop_length self = Some c
      /\ shape_at audio1 2 = inr time /\ (c < Z.of_nat time)%Z
      /\ shape_last audio1 = inr last
      /\ randint 0 (Z.of_nat last - c) u = inr start
      /\ slice_last start (start + c) audio1 = inr audio2
      /\ slice_last start (start + c) fake1 = inr fake2
      /\ slice_last start (start + c) mask = inr mask2
      /\ shape audio2 = shape fake2 /\ shape fake2 = shape mask2.
Proof.
  unfold crop. destruct (crop_length self) as [c |].
  2:{ intros E. injection E as <- <- <- <-. left. repeat split. discriminate. }
  run_step. destruct (shape_at audio1 2) as [e | time]; [discriminate |].
  destruct (c <? Z.of_nat time)%Z eqn:Hc.
  2:{ intros E. injection E as <- <- <- <-. left. repeat split.
      intros c' time' Ec Et. injection Ec as <-. injection Et as <-.
      apply Z.ltb_ge. exact Hc. }
  run_step. destruct (shape_last audio1) as [e | last]; [discriminate |].
  run_step. destruct (randint 0 _ u) as [e | start] eqn:Er; [discriminate |].
  run_step. destruct (slice_last start _ audio1) as [e | a2] eqn:Ea; [discriminate |].
  run_step. destruct (slice_last start _ fake1) as [e | f2] eqn:Ef; [discriminate |].
  run_step. destruct (slice_last start _ mask) as [e | k2] eqn:Ek; [discriminate |].
  run_step.
  destruct (shape_eq_dec (shape a2) (shape f2)) as [H1 | H1]; [| discriminate].
  destruct (shape_eq_dec (shape f2) (shape k2)) as [H2 | H2]; [| discriminate].
  run_step. intros E. injection E as <- <- <- <-.
  right. exists c, time, last, start. apply Z.ltb_lt in Hc. repeat split; assumption.
Qed.

End Inversion.

Section LossClaims.
Context {F : Type} `{Scalar F}.
Variable self : HiFiGANModel F.

(** C1: in every training step the loss handed to the generator's backward
    pass is [loss_stft * 2.5] plus the mean adversarial loss.  [loss_stft] is
    the sum of the two STFT losses of the masked audio; the adversarial loss
    of a discriminator is [mean((1 - score_fake)^2)] on the masked and
    possibly cropped fake audio; the mean is the sum accumulated over the
    ensemble divided by the number of discriminators. *)
Theorem generator_loss_composition (b : batch F) (u : Z)
  tr1 audio1 fake1 mask tr2 loss_stft tr3 audio2 fake2 mask2 :
  discriminators self <> [] ->
  masked_forward self b = (tr1, inr (audio1, fake1, mask)) ->
  monitored_losses self audio1 fake1 = (tr2, inr loss_stft) ->
  crop self u audio1 fake1 mask = (tr3, inr (audio2, fake2, mask2)) ->
  hd_error (backwards (fst (training_step self b u)))
  = Some (fadd (fmul loss_stft (of_dyadic 5 (-1)))
               (fdiv (fold_left fadd
                        (map (fun item : string * discriminator F =>
                                tmean (tmap (fun s => fmul (fsub (of_int 1) s) (fsub (of_int 1) s))
                                            (fst (snd item fake2))))
                             (discriminators self))
                        (of_int 0))
                     (of_int (Z.of_nat (List.length (discriminators self))))))
  /\ (exists audio_sq fake_sq,
        squeeze1 audio1 = inr audio_sq /\ squeeze1 fake1 = inr fake_sq
        /\ loss_stft = fadd (fst (multi_resolution_stft_loss self fake_sq audio_sq))
                            (snd (multi_resolution_stft_loss self fake_sq audio_sq)))
  /\ (exists sq, squeeze1 (audio b) = inr sq
        /\ tmap2 fmul (generator self (mel_transforms_input self sq)) mask = inr fake1)
  /\ (fake2 = fake1
      \/ exists c start, crop_length self = Some c
                         /\ slice_last start (start + c) fake1 = inr fake2).
Proof.
  intros Hne Hmf Hml Hcr. split; [| split; [| split]].
  - rewrite training_step_eq, Hmf, Hml, Hcr.
    destruct (discriminators self) as [| d ds] eqn:E; [congruence |].
    cbn [fst]. rewrite !backwards_app.
    pose proof (masked_forward_silent self b) as S1. rewrite Hmf in S1.
    pose proof (monitored_losses_silent self audio1 fake1) as S2. rewrite Hml in S2.
    pose proof (crop_silent self u audio1 fake1 mask) as S3. rewrite Hcr in S3.
    cbn [fst] in S1, S2, S3.
    rewrite (proj2 S1), (proj2 S2), (proj2 S3), generator_events_backwards.
    cbn [app hd_error]. unfold total_generator_loss, mean_adv_loss, adv_loss.
    rewrite E. reflexivity.
  - apply monitored_losses_inr in Hml as (a & f & lm & Ha & Hf & Hl & _).
    exists a, f. repeat split; assumption.
  - apply masked_forward_inr in Hmf as (_ & m & sq & _ & _ & Hsq & _ & _ & Hf).
    exists sq. split; assumption.
  - apply crop_inr in Hcr as [(_ & -> & _) | (c & t & l & s & Hc & _ & _ & _ & _ & _ & Hf & _)].
    + left. reflexivity.
    + right. exists c, s. split; assumption.
Qed.

End LossClaims.

Section FailureClaims.
Context {F : Type} `{Scalar F}.
Variable self : HiFiGANModel F.

(** C10: the training step divides the accumulated adversarial loss and the
    accumulated discriminator loss by the number of discriminators.  With a
    non-empty ensemble both divisions go through: the step completes and the
    two losses it backpropagates are those quotients.  With an empty
    ensemble the step raises [ZeroDivisionError] at the first division,
    having performed only the events of its preamble, and never completes. *)
Theorem division_by_ensemble_size (b : batch F) (u : Z)
  tr1 audio1 fake1 mask tr2 loss_stft tr3 audio2 fake2 mask2 :
  masked_forward self b = (tr1, inr (audio1, fake1, mask)) ->
  monitored_losses self audio1 fake1 = (tr2, inr loss_stft) ->
  crop self u audio1 fake1 mask = (tr3, inr (audio2, fake2, mask2)) ->
  (discriminators self <> [] ->
   snd (training_step self b u) = inr tt
   /\ backwards (fst (training_step self b u))
      = [fadd (fmul loss_stft (of_dyadic 5 (-1)))
              (fdiv (fold_left fadd (map (adv_loss fake2) (discriminators self)) (of_int 0))
                    (of_int (Z.of_nat (List.length (discriminators self)))));
         fdiv (fold_left fadd (map (disc_loss audio2 fake2) (discriminators self)) (of_int 0))
              (of_int (Z.of_nat (List.length (discriminators self))))])
  /\ (discriminators self = [] ->
      training_step self b u = (tr1 ++ tr2 ++ tr3, inl ZeroDivisionError)
      /\ backwards (tr1 ++ tr2 ++ tr3) = []
      /\ updates (tr1 ++ tr2 ++ tr3) = []).
Proof.
  intros Hmf Hml Hcr.
  pose proof (masked_forward_silent self b) as S1. rewrite Hmf in S1.
  pose proof (monitored_losses_silent self audio1 fake1) as S2. rewrite Hml in S2.
  pose proof (crop_silent self u audio1 fake1 mask) as S3. rewrite Hcr in S3.
  cbn [fst] in S1, S2, S3.
  rewrite training_step_eq, Hmf, Hml, Hcr. split.
  - intros Hne. destruct (discriminators self) as [| d ds] eqn:E; [congruence |].
    cbn [fst snd]. split; [reflexivity |].
    rewrite !backwards_app, (proj2 S1), (proj2 S2), (proj2 S3).
    rewrite generator_events_backwards, discriminator_events_backwards.
    unfold total_generator_loss, mean_adv_loss, mean_disc_loss. rewrite E. reflexivity.
  - intros Hnil. rewrite Hnil. split; [reflexivity |].
    split; [apply (silent_app S1 (silent_app S2 S3)) | apply (silent_app S1 (silent_app S2 S3))].
Qed.

(** C5: a shape mismatch aborts the training step with an assertion failure
    before either optimizer has stepped.  (1) If the generator's output has
    another shape than the input audio, the step raises [AssertionError]
    right after the generator's gradients were reset.  (2) If the three
    cropped tensors do not have one shape, the step raises [AssertionError]
    at the end of its preamble.  (3) Whenever the step raises
    [AssertionError], its trace holds no optimizer step, no scheduler step
    and no backward pass. *)
Theorem shape_mismatch_aborts_before_updates (b : batch F) (u : Z) :
  (forall m sq,
      index_colon_none_colon (sequence_mask self (lengths b)) = inr m ->
      squeeze1 (audio b) = inr sq ->
      shape (generator self (mel_transforms_input self sq)) <> shape (audio b) ->
      training_step self b u = ([ZeroGrad Gen], inl AssertionError))
  /\ (forall tr1 audio1 fake1 mask tr2 loss_stft c time last start audio2 fake2 mask2,
         masked_forward self b = (tr1, inr (audio1, fake1, mask)) ->
         monitored_losses self audio1 fake1 = (tr2, inr loss_stft) ->
         crop_length self = Some c ->
         shape_at audio1 2 = inr time ->
         (c < Z.of_nat time)%Z ->
         shape_last audio1 = inr last ->
         randint 0 (Z.of_nat last - c) u = inr start ->
         slice_last start (start + c) audio1 = inr audio2 ->
         slice_last start (start + c) fake1 = inr fake2 ->
         slice_last start (start + c) mask = inr mask2 ->
         ~ (shape audio2 = shape fake2 /\ shape fake2 = shape mask2) ->
         training_step self b u = (tr1 ++ tr2, inl AssertionError))
  /\ (snd (training_step self b u) = inl AssertionError ->
      updates (fst (training_step self b u)) = []
      /\ backwards (fst (training_step self b u)) = []
      /\ optimizer_steps Gen (fst (training_step self b u)) = 0
      /\ optimizer_steps Disc (fst (training_step self b u)) = 0).
Proof.
  split; [| split].
  - intros m sq Hm Hsq Hshape.
    rewrite training_step_eq, masked_forward_eq, Hm, Hsq. cbv zeta.
    destruct (shape_eq_dec _ _) as [Heq | _]; [contradiction | reflexivity].
  - intros tr1 audio1 fake1 mask tr2 loss_stft c time last start audio2 fake2 mask2
           Hmf Hml Hc Ht Hlt Hl Hr Ha Hf Hk Hne.
    rewrite training_step_eq, Hmf, Hml.
    unfold crop. rewrite Hc. run_step. rewrite Ht. apply Z.ltb_lt in Hlt. rewrite Hlt.
    run_step. rewrite Hl. run_step. rewrite Hr. run_step. rewrite Ha. run_step.
    rewrite Hf. run_step. rewrite Hk. run_step.
    destruct (shape_eq_dec (shape audio2) (shape fake2)) as [H1 | H1].
    + destruct (shape_eq_dec (shape fake2) (shape mask2)) as [H2 | H2].
      * exfalso. apply Hne. split; assumption.
      * rewrite !app_nil_r. reflexivity.
    + rewrite !app_nil_r. reflexivity.
  - intros Herr.
    destruct (training_step_outcomes self b u) as [(Hok & _) | (_ & Hu & Hb)];
      [congruence |].
    repeat split; try assumption.
    + unfold optimizer_steps. unfold updates in Hu.
      induction (fst (training_step self b u)) as [| ev tr IH]; [reflexivity |].
      cbn [filter] in Hu |- *. destruct ev; cbn [is_update] in Hu; try discriminate;
        apply IH; assumption.
    + unfold optimizer_steps. unfold updates in Hu.
      induction (fst (training_step self b u)) as [| ev tr IH]; [reflexivity |].
      cbn [filter] in Hu |- *. destruct ev; cbn [is_update] in Hu; try discriminate;
        apply IH; assumption.
Qed.

End FailureClaims.

(** * Shapes *)

Section ShapeLemmas.

Lemma broadcast_rev_same (s : list nat) : broadcast_rev s s = Some s.
Proof.
  induction s as [| a s IH]; [reflexivity |].
  cbn [broadcast_rev]. rewrite IH, Nat.eqb_refl. reflexivity.
Qed.

Lemma broadcast_shapes_same (s : list nat) : broadcast_shapes s s = Some s.
Proof.
  unfold broadcast_shapes. rewrite broadcast_rev_same. cbn [option_map].
  rewrite rev_involutive. reflexivity.
Qed.

Lemma tmap2_shape {A B C} (f : A -> B -> C) (x : tensor A) (y : tensor B) (z : tensor C) :
  tmap2 f x y = inr z -> broadcast_shapes (shape x) (shape y) = Some (shape z).
Proof.
  unfold tmap2. destruct (broadcast_shapes (shape x) (shape y)) as [s |]; [| discriminate].
  intros E. injection E as <-. reflexivity.
Qed.

Lemma tmap2_same_shape {A B C} (f : A -> B -> C) (x : tensor A) (y : tensor B) (z : tensor C) :
  shape x = shape y -> tmap2 f x y = inr z -> shape z = shape x.
Proof.
  intros Hs Hz. apply tmap2_shape in Hz. rewrite <- Hs, broadcast_shapes_same in Hz.
  congruence.
Qed.

(** The shape of a slice depends on the shape of the tensor only. *)
Lemma slice_last_shape {A} (a b : Z) (t : tensor A) (outer : list nat) (n : nat) :
  shape t = outer ++ [n] ->
  exists t', slice_last a b t = inr t'
             /\ shape t' = outer ++ [slice_bound n b - slice_bound n a].
Proof.
  intros Hs. unfold slice_last. rewrite Hs, rev_app_distr. cbn [rev app].
  eexists. split; [reflexivity |]. cbn [shape rev]. rewrite rev_involutive. reflexivity.
Qed.

Lemma slice_bound_inside (n : nat) (i : Z) :
  (0 <= i <= Z.of_nat n)%Z -> slice_bound n i = Z.to_nat i.
Proof.
  intros Hi. unfold slice_bound.
  destruct (Z.ltb_spec i 0); [lia |]. f_equal. lia.
Qed.

End ShapeLemmas.

(** * Tensors of one shape *)

Section SameShape.

Lemma numel_of_app (a b : list nat) : numel_of (a ++ b) = numel_of a * numel_of b.
Proof.
  unfold numel_of. induction a as [| x a IH]; simpl.
  - apply eq_sym, Nat.add_0_r.
  - rewrite IH. apply Nat.mul_assoc.
Qed.

Lemma numel_of_rev (s : list nat) : numel_of (rev s) = numel_of s.
Proof.
  induction s as [| x s IH]; [reflexivity |].
  cbn [rev]. rewrite numel_of_app, IH.
  change (numel_of [x]) with (x * 1). change (numel_of (x :: s)) with (x * numel_of s).
  lia.
Qed.

(** Between equal shapes nothing is broadcast: positions map to themselves. *)
Lemma bindex_same (s : list nat) (k : nat) : k < numel_of s -> bindex s s k = k.
Proof.
  revert k. induction s as [| a s IH]; intros k Hk.
  - cbn in Hk. cbn. lia.
  - cbn [bindex]. change (numel_of (a :: s)) with (a * numel_of s) in Hk.
    assert (Ha : a <> 0) by (intros ->; lia).
    rewrite IH by (apply Nat.Div0.div_lt_upper_bound; lia).
    destruct (Nat.eqb_spec a 1) as [-> | H1].
    + rewrite Nat.div_1_r. lia.
    + pose proof (Nat.div_mod_eq k a). lia.
Qed.

Lemma flat_map_nth_pairs {A B C} (f : A -> B -> C) (xs : list A) (ys : list B) :
  List.length xs = List.length ys ->
  flat_map (fun k => match nth_error xs k, nth_error ys k with
                     | Some a, Some b => [f a b]
                     | _, _ => []
                     end) (seq 0 (List.length xs))
  = map (fun p => f (fst p) (snd p)) (combine xs ys).
Proof.
  revert ys. induction xs as [| x xs IH]; intros [| y ys] Hl; try discriminate; [reflexivity |].
  cbn [List.length seq flat_map nth_error combine map fst snd app].
  f_equal. rewrite <- seq_shift, flat_map_concat_map, map_map, <- flat_map_concat_map.
  cbn [nth_error]. apply IH. injection Hl. auto.
Qed.

Lemma tmap2_same {A B C} (f : A -> B -> C) (x : tensor A) (y : tensor B) :
  shape x = shape y -> wf x -> wf y ->
  tmap2 f x y
  = inr (mkTensor (shape x) (map (fun p => f (fst p) (snd p)) (combine (data x) (data y)))).
Proof.
  intros Hs Hx Hy. unfold tmap2. rewrite <- Hs, broadcast_shapes_same.
  f_equal. f_equal. unfold wf in Hx, Hy. rewrite <- Hs in Hy.
  rewrite <- flat_map_nth_pairs by congruence. rewrite Hx.
  rewrite !flat_map_concat_map. f_equal.
  apply map_ext_in. intros k Hk. apply in_seq in Hk.
  rewrite bindex_same by (rewrite numel_of_rev; lia). reflexivity.
Qed.

End SameShape.

(** * Windows *)

Section Windows.

Lemma slice_rows_window {A} (rows n lo len : nat) (l : list A) :
  List.length l = rows * n -> lo + len <= n ->
  List.length (slice_rows rows n lo len l) = rows * len
  /\ forall r j, r < rows -> j < len ->
       nth_error (slice_rows rows n lo len l) (r * len + j) = nth_error l (r * n + lo + j).
Proof.
  intros Hl Hn. revert l Hl. induction rows as [| rows IH]; intros l Hl.
  - split; [reflexivity | intros r j Hr; lia].
  - cbn [slice_rows].
    assert (Hchunk : List.length (firstn len (skipn lo (firstn n l))) = len).
    { rewrite length_firstn, length_skipn, length_firstn. lia. }
    destruct (IH (skipn n l)) as [IHl IHn]; [rewrite length_skipn; lia |].
    split; [rewrite length_app, Hchunk, IHl; lia |].
    intros [| r] j Hr Hj.
    + rewrite nth_error_app1 by lia. cbn [Nat.mul Nat.add].
      rewrite nth_error_firstn. destruct (Nat.ltb_spec j len); [| lia].
      rewrite nth_error_skipn, nth_error_firstn.
      destruct (Nat.ltb_spec (lo + j) n); [reflexivity | lia].
    + rewrite nth_error_app2 by lia. rewrite Hchunk.
      replace (S r * len + j - len) with (r * len + j) by lia.
      rewrite IHn by lia. rewrite nth_error_skipn. f_equal. lia.
Qed.

(** A slice inside the last dimension of a well-formed tensor is well
    formed, and it is the window between its bounds. *)
Lemma slice_last_window {A} (a b : Z) (t t' : tensor A) (outer : list nat) (n : nat) :
  shape t = outer ++ [n] -> wf t -> (0 <= a <= b)%Z -> (b <= Z.of_nat n)%Z ->
  slice_last a b t = inr t' ->
  wf t' /\ window (numel_of outer) n (Z.to_nat a) (Z.to_nat (b - a)) t t'.
Proof.
  intros Hs Hwf Hab Hb. unfold slice_last. rewrite Hs, rev_app_distr. cbn [rev app].
  rewrite !slice_bound_inside by lia. intros E. injection E as <-.
  unfold wf in Hwf. rewrite Hs, numel_of_app in Hwf.
  change (numel_of [n]) with (n * 1) in Hwf.
  replace (Z.to_nat b - Z.to_nat a) with (Z.to_nat (b - a)) by lia.
  destruct (@slice_rows_window A (numel_of (rev outer)) n (Z.to_nat a) (Z.to_nat (b - a)) (data t))
    as [Hl Hn]; [rewrite numel_of_rev; lia | lia |].
  split.
  - unfold wf. cbn [shape data]. rewrite Hl. cbn [rev]. rewrite rev_involutive, numel_of_app.
    rewrite numel_of_rev. change (numel_of [?x]) with (x * 1). lia.
  - unfold window. cbn [data]. rewrite numel_of_rev in *. split; assumption.
Qed.

(** The product of two well-formed tensors of one shape is well formed. *)
Lemma tmap2_same_wf {A B C} (f : A -> B -> C) (x : tensor A) (y : tensor B) (z : tensor C) :
  shape x = shape y -> wf x -> wf y -> tmap2 f x y = inr z -> wf z.
Proof.
  intros Hs Hx Hy. rewrite (tmap2_same f (x:=x) (y:=y) Hs Hx Hy). intros E. injection E as <-.
  unfold wf in *. cbn [shape data]. rewrite length_map, length_combine.
  rewrite <- Hs in Hy. lia.
Qed.

(** As the raw draw runs through [high] consecutive values, [torch.randint]
    returns each index below [high] once. *)
Lemma draws_of_period_eq (high k : Z) :
  (0 < high <= int64_max)%Z ->
  draws_of_period high k = map (fun i => inr (Z.of_nat i)) (seq 0 (Z.to_nat high)).
Proof.
  intros Hh. unfold draws_of_period. apply map_ext_in. intros i Hi. apply in_seq in Hi.
  unfold randint, in_int64, int64_min, int64_max in *.
  destruct (Z.leb_spec (-9223372036854775808) 0); [| lia].
  destruct (Z.leb_spec 0 9223372036854775807); [| lia].
  destruct (Z.leb_spec (-9223372036854775808) high); [| lia].
  destruct (Z.leb_spec high 9223372036854775807); [| lia].
  cbn [andb]. destruct (Z.ltb_spec 0 high); [| lia].
  rewrite Z.sub_0_r, Z.add_0_l, Z.add_comm, Z_mod_plus_full, Z.mod_small by lia.
  reflexivity.
Qed.

Lemma randint_inside (high u : Z) :
  (0 < high <= int64_max)%Z -> randint 0 high u = inr (u mod high)%Z.
Proof.
  intros Hh. unfold randint, in_int64, int64_min, int64_max in *.
  destruct (Z.leb_spec (-9223372036854775808) 0); [| lia].
  destruct (Z.leb_spec 0 9223372036854775807); [| lia].
  destruct (Z.leb_spec (-9223372036854775808) high); [| lia].
  destruct (Z.leb_spec high 9223372036854775807); [| lia].
  cbn [andb]. destruct (Z.ltb_spec 0 high); [| lia].
  rewrite Z.sub_0_r. reflexivity.
Qed.

End Windows.

Section CropClaims.
Context {F : Type} `{Scalar F}.
Variable self : HiFiGANModel F.

(** C3: when [crop_length] is configured and the time dimension exceeds it,
    one start index is drawn uniformly from [0, time - crop_length): the
    raw draw of the random generator is reduced modulo the width of that
    range, so a raw draw inside the range is its own start index, and as the
    raw draw runs through any [time - crop_length] consecutive values every
    start index of the range is returned once.  The window satisfies
    [0 <= start] and [start + crop_length <= time]; the audio, the fake
    audio and the mask are cut with the same bounds, and the three results
    have one shape.  With a crop length that is not negative that shape is
    batch x 1 x crop_length and each well-formed tensor is cut to a
    well-formed one that holds, in each row, the [crop_length] samples from
    [start] on.  The batch is as the data model has it: audio of shape
    batch x 1 x time and a mask over the same batch and time, which makes
    the masked audio and the mask well formed when the audio and the
    sequence mask are; the width of the range fits [torch.randint]'s
    [int64] bound, as it does for every crop length that is not negative. *)
Theorem crop_window (b : batch F) (u : Z) tr1 audio1 fake1 mask (B T : nat) (c : Z) :
  masked_forward self b = (tr1, inr (audio1, fake1, mask)) ->
  shape (audio b) = [B; 1; T] ->
  shape (sequence_mask self (lengths b)) = [B; T] ->
  crop_length self = Some c ->
  (c < Z.of_nat T)%Z ->
  (Z.of_nat T - c <= int64_max)%Z ->
  exists start audio2 fake2 mask2,
    randint 0 (Z.of_nat T - c) u = inr start
    /\ start = (u mod (Z.of_nat T - c))%Z
    /\ ((0 <= u < Z.of_nat T - c)%Z -> start = u)
    /\ (0 <= start < Z.of_nat T - c)%Z
    /\ (start + c <= Z.of_nat T)%Z
    /\ crop self u audio1 fake1 mask = ([], inr (audio2, fake2, mask2))
    /\ slice_last start (start + c) audio1 = inr audio2
    /\ slice_last start (start + c) fake1 = inr fake2
    /\ slice_last start (start + c) mask = inr mask2
    /\ shape audio2 = shape fake2
    /\ shape fake2 = shape mask2
    /\ ((0 <= c)%Z -> shape audio2 = [B; 1; Z.to_nat c])
    /\ (forall k : Z,
          draws_of_period (Z.of_nat T - c) k
          = map (fun i => inr (Z.of_nat i)) (seq 0 (Z.to_nat (Z.of_nat T - c))))
    /\ ((0 <= c)%Z ->
        forall t t', In (t, t') [(audio1, audio2); (fake1, fake2); (mask, mask2)] ->
                     wf t -> wf t' /\ window B T (Z.to_nat start) (Z.to_nat c) t t')
    /\ (wf (audio b) -> wf (sequence_mask self (lengths b)) -> wf audio1 /\ wf mask).
Proof.
  intros Hmf Hshape Hmask Hc Hlt Hmax.
  apply masked_forward_inr in Hmf as (_ & m & sq & Hm & -> & Hsq & Hgen & Ha & Hf).
  assert (Hk : shape (to_float32 m) = [B; 1; T]).
  { unfold index_colon_none_colon in Hm. rewrite Hmask in Hm.
    injection Hm as <-. reflexivity. }
  assert (Ha1 : shape audio1 = [B; 1; T]).
  { rewrite (tmap2_same_shape _ _ _ (eq_trans Hshape (eq_sym Hk)) Ha). exact Hshape. }
  assert (Hf1 : shape fake1 = [B; 1; T]).
  { rewrite (tmap2_same_shape _ _ _ (eq_trans (eq_trans Hgen Hshape) (eq_sym Hk)) Hf).
    rewrite Hgen. exact Hshape. }
  set (start := (u mod (Z.of_nat T - c))%Z).
  assert (Hrange : (0 <= start < Z.of_nat T - c)%Z) by (apply Z.mod_pos_bound; lia).
  destruct (@slice_last_shape _ start (start + c) audio1 [B; 1] T Ha1) as (a2 & Ea & Sa).
  destruct (@slice_last_shape _ start (start + c) fake1 [B; 1] T Hf1) as (f2 & Ef & Sf).
  destruct (@slice_last_shape _ start (start + c) (to_float32 m) [B; 1] T Hk) as (k2 & Ek & Sk).
  assert (Hr : randint 0 (Z.of_nat T - c) u = inr start) by (apply randint_inside; lia).
  exists start, a2, f2, k2.
  split; [exact Hr |]. split; [reflexivity |].
  split; [intros Hu; apply Z.mod_small; exact Hu |].
  split; [exact Hrange |]. split; [lia |].
  split.
  { unfold crop. rewrite Hc. run_step.
    unfold shape_at, shape_last. rewrite Ha1. cbn [nth_error rev app].
    apply Z.ltb_lt in Hlt. rewrite Hlt. run_step. rewrite Hr. run_step.
    rewrite Ea. run_step. rewrite Ef. run_step. rewrite Ek. run_step.
    destruct (shape_eq_dec (shape a2) (shape f2)) as [H1 | H1]; [| congruence].
    destruct (shape_eq_dec (shape f2) (shape k2)) as [H2 | H2]; [| congruence].
    reflexivity. }
  split; [exact Ea |]. split; [exact Ef |]. split; [exact Ek |].
  split; [congruence |]. split; [congruence |].
  split.
  { intros Hc0. rewrite Sa. cbn [app].
    rewrite !slice_bound_inside by lia. do 2 f_equal. f_equal. lia. }
  split; [intros k; apply draws_of_period_eq; lia |].
  split.
  { intros Hc0 t t' Hin Hwf.
    assert (Hcut : shape t = [B; 1] ++ [T] /\ slice_last start (start + c) t = inr t').
    { cbn [In] in Hin.
      destruct Hin as [E | [E | [E | []]]]; injection E as <- <-; split; assumption. }
    destruct Hcut as [Hst Hsl].
    destruct (@slice_last_window _ start (start + c)%Z t t' [B; 1] T Hst Hwf)
      as [Hw Hwin]; [lia | lia | exact Hsl |].
    split; [exact Hw |].
    replace (start + c - start)%Z with c in Hwin by lia.
    change (numel_of [B; 1]) with (B * (1 * 1)) in Hwin.
    replace (B * (1 * 1)) with B in Hwin by lia. exact Hwin. }
  intros Wa Wm.
  assert (Wk : wf (to_float32 m)).
  { unfold index_colon_none_colon in Hm. rewrite Hmask in Hm. injection Hm as <-.
    unfold wf in *. cbn [to_float32 tmap shape data]. rewrite length_map, Wm, Hmask.
    cbn [numel_of fold_right]. lia. }
  split; [| exact Wk].
  exact (tmap2_same_wf fmul (eq_trans Hshape (eq_sym Hk)) Wa Wk Ha).
Qed.


End CropClaims.

(** * Claims about the loss utilities *)

Section ZipLemmas.

Lemma zip_firstn {A B} (xs : list A) (ys : list B) :
  zip (firstn (Nat.min (List.length xs) (List.length ys)) xs)
      (firstn (Nat.min (List.length xs) (List.length ys)) ys)
  = zip xs ys.
Proof.
  revert ys. induction xs as [| x xs IH]; intros [| y ys]; try reflexivity.
  cbn [List.length Nat.min firstn zip]. rewrite IH. reflexivity.
Qed.

Lemma zip_app_left {A B} (xs extra : list A) (ys : list B) :
  List.length xs = List.length ys -> zip (xs ++ extra) ys = zip xs ys.
Proof.
  revert ys. induction xs as [| x xs IH]; intros [| y ys] Hl; try discriminate.
  - destruct extra; reflexivity.
  - cbn [app zip]. rewrite IH by (injection Hl; auto). reflexivity.
Qed.

Lemma zip_app_right {A B} (xs : list A) (ys extra : list B) :
  List.length xs = List.length ys -> zip xs (ys ++ extra) = zip xs ys.
Proof.
  revert ys. induction xs as [| x xs IH]; intros [| y ys] Hl; try discriminate.
  - reflexivity.
  - cbn [app zip]. rewrite IH by (injection Hl; auto). reflexivity.
Qed.

Lemma zip_map_both {A B C} (f : A -> B) (g : A -> C) (l : list A) :
  zip (map f l) (map g l) = map (fun x => (f x, g x)) l.
Proof. induction l as [| x l IH]; [reflexivity |]. cbn [map zip]. rewrite IH. reflexivity. Qed.

End ZipLemmas.

Section ZipClaims.
Context {F : Type} `{Scalar F}.

(** C9: when the real and the generated sequence handed to
    [discriminator_loss] or [feature_matching_loss] differ in length, the
    surplus of the longer one is ignored: the result, whether a value or (for
    [feature_matching_loss]) an exception raised by [F.l1_loss], is the result
    on the two prefixes of the common length; elements appended to either
    sequence beyond the length of the other change nothing. *)
Theorem unequal_lengths_truncate
  (reals gens extra : list (tensor F)) (freals fgens fextra : list (list (tensor F))) :
  discriminator_loss reals gens
  = discriminator_loss (firstn (Nat.min (List.length reals) (List.length gens)) reals)
                       (firstn (Nat.min (List.length reals) (List.length gens)) gens)
  /\ feature_matching_loss freals fgens
     = feature_matching_loss
         (firstn (Nat.min (List.length freals) (List.length fgens)) freals)
         (firstn (Nat.min (List.length freals) (List.length fgens)) fgens)
  /\ discriminator_loss
       (firstn (Nat.min (List.length reals) (List.length gens)) reals ++ extra)
       (firstn (Nat.min (List.length reals) (List.length gens)) gens)
     = discriminator_loss reals gens
  /\ discriminator_loss
       (firstn (Nat.min (List.length reals) (List.length gens)) reals)
       (firstn (Nat.min (List.length reals) (List.length gens)) gens ++ extra)
     = discriminator_loss reals gens
  /\ feature_matching_loss
       (firstn (Nat.min (List.length freals) (List.length fgens)) freals ++ fextra)
       (firstn (Nat.min (List.length freals) (List.length fgens)) fgens)
     = feature_matching_loss freals fgens
  /\ feature_matching_loss
       (firstn (Nat.min (List.length freals) (List.length fgens)) freals)
       (firstn (Nat.min (List.length freals) (List.length fgens)) fgens ++ fextra)
     = feature_matching_loss freals fgens.
Proof.
  assert (Hl : forall (A B : Type) (xs : list A) (ys : list B),
             List.length (firstn (Nat.min (List.length xs) (List.length ys)) xs)
             = List.length (firstn (Nat.min (List.length xs) (List.length ys)) ys)).
  { intros A B xs ys. rewrite !length_firstn. lia. }
  unfold discriminator_loss, feature_matching_loss.
  repeat split.
  - rewrite zip_firstn. reflexivity.
  - rewrite zip_firstn. reflexivity.
  - rewrite zip_app_left by apply Hl. rewrite zip_firstn. reflexivity.
  - rewrite zip_app_right by apply Hl. rewrite zip_firstn. reflexivity.
  - rewrite zip_app_left by apply Hl. rewrite zip_firstn. reflexivity.
  - rewrite zip_app_right by apply Hl. rewrite zip_firstn. reflexivity.
Qed.

End ZipClaims.

Section Totals.
Context {F : Type} `{Scalar F}.

Lemma generator_loss_fold (outputs : list (tensor F)) (acc : pynum F) (losses : list F) :
  fold_left
    (fun '(loss, losses) dg =>
       let temp := mean_sq_one_minus dg in
       (py_add_tensor loss temp, losses ++ [temp]))
    outputs (acc, losses)
  = (fold_left py_add_tensor (map mean_sq_one_minus outputs) acc,
     losses ++ map mean_sq_one_minus outputs).
Proof.
  revert acc losses. induction outputs as [| dg outputs IH]; intros acc losses.
  - cbn. rewrite app_nil_r. reflexivity.
  - cbn [fold_left map]. rewrite IH. rewrite <- app_assoc. reflexivity.
Qed.

(** [generator_loss]: the total is Python's sum of the per-output losses,
    which are returned in the order of the outputs. *)
Lemma generator_loss_eq (outputs : list (tensor F)) :
  generator_loss outputs
  = (py_sum (map mean_sq_one_minus outputs), map mean_sq_one_minus outputs).
Proof. unfold generator_loss. rewrite generator_loss_fold. reflexivity. Qed.

Lemma discriminator_loss_fold (pairs : list (tensor F * tensor F))
  (acc : pynum F) (rl gl : list F) :
  fold_left
    (fun '(loss, r_losses, g_losses) '(dr, dg) =>
       let r_loss := mean_sq_one_minus dr in
       let g_loss := mean_sq dg in
       (py_add_tensor loss (fadd r_loss g_loss), r_losses ++ [r_loss], g_losses ++ [g_loss]))
    pairs (acc, rl, gl)
  = (fold_left py_add_tensor (map pair_loss pairs) acc,
     rl ++ map (fun p => mean_sq_one_minus (fst p)) pairs,
     gl ++ map (fun p => mean_sq (snd p)) pairs).
Proof.
  revert acc rl gl. induction pairs as [| [dr dg] pairs IH]; intros acc rl gl.
  - cbn. rewrite !app_nil_r. reflexivity.
  - cbn [fold_left map]. rewrite IH. rewrite <- !app_assoc. reflexivity.
Qed.

Lemma discriminator_loss_eq (reals gens : list (tensor F)) :
  discriminator_loss reals gens
  = (py_sum (map pair_loss (zip reals gens)),
     map (fun p => mean_sq_one_minus (fst p)) (zip reals gens),
     map (fun p => mean_sq (snd p)) (zip reals gens)).
Proof. unfold discriminator_loss. rewrite discriminator_loss_fold. reflexivity. Qed.

Section Exactness.
Hypothesis fadd_comm : forall x y : F, fadd x y = fadd y x.
Hypothesis fadd_assoc : forall x y z : F, fadd x (fadd y z) = fadd (fadd x y) z.

Lemma fold_fadd_permutation (l l' : list F) :
  Permutation l l' -> forall a, fold_left fadd l a = fold_left fadd l' a.
Proof.
  induction 1 as [| x l l' _ IH | x y l | l l' l'' _ IH1 _ IH2]; intros a; cbn [fold_left].
  - reflexivity.
  - apply IH.
  - f_equal. rewrite <- !fadd_assoc. f_equal. apply fadd_comm.
  - rewrite IH1. apply IH2.
Qed.

Lemma py_sum_permutation (l l' : list F) : Permutation l l' -> py_sum l = py_sum l'.
Proof.
  intros Hp. unfold py_sum.
  destruct l as [| x l].
  - apply Permutation_nil in Hp. subst. reflexivity.
  - destruct l' as [| x' l']; [apply Permutation_sym, Permutation_nil in Hp; discriminate |].
    rewrite !fold_py_int by discriminate. f_equal. apply fold_fadd_permutation. exact Hp.
Qed.

End Exactness.

End Totals.

(** C7, as amended: when the addition of tensor elements is commutative and
    associative, as it is in exact arithmetic, the total of [generator_loss]
    is the same for every reordering of the outputs, and the total of
    [discriminator_loss] is the same for every reordering applied to the real
    and the generated outputs alike; the per-output losses of
    [generator_loss], and the real and the generated losses of
    [discriminator_loss], each list by itself and the two pair by pair, are
    reordered with the outputs. *)
Theorem loss_totals_permutation_exact {F : Type} `{Scalar F}
  (outputs outputs' reals gens reals' gens' : list (tensor F)) :
  (forall x y : F, fadd x y = fadd y x) ->
  (forall x y z : F, fadd x (fadd y z) = fadd (fadd x y) z) ->
  Permutation outputs outputs' ->
  List.length reals = List.length gens ->
  List.length reals' = List.length gens' ->
  Permutation (zip reals gens) (zip reals' gens') ->
  fst (generator_loss outputs') = fst (generator_loss outputs)
  /\ Permutation (snd (generator_loss outputs)) (snd (generator_loss outputs'))
  /\ fst (fst (discriminator_loss reals' gens')) = fst (fst (discriminator_loss reals gens))
  /\ Permutation (snd (fst (discriminator_loss reals gens)))
                 (snd (fst (discriminator_loss reals' gens')))
  /\ Permutation (snd (discriminator_loss reals gens))
                 (snd (discriminator_loss reals' gens'))
  /\ Permutation (zip (snd (fst (discriminator_loss reals gens)))
                      (snd (discriminator_loss reals gens)))
                 (zip (snd (fst (discriminator_loss reals' gens')))
                      (snd (discriminator_loss reals' gens'))).
Proof.
  intros Hcomm Hassoc Hp _ _ Hz.
  rewrite !generator_loss_eq, !discriminator_loss_eq. cbn [fst snd].
  split; [| split; [| split; [| split; [| split]]]].
  - apply (py_sum_permutation Hcomm Hassoc). apply Permutation_map, Permutation_sym, Hp.
  - apply Permutation_map, Hp.
  - apply (py_sum_permutation Hcomm Hassoc). apply Permutation_map, Permutation_sym, Hz.
  - apply Permutation_map, Hz.
  - apply Permutation_map, Hz.
  - rewrite !zip_map_both. apply Permutation_map, Hz.
Qed.

(** C7, as stated, fails in binary32: the accumulation rounds, so the order
    of the outputs shows in the total: scores of -4095, 0 and 0 give per-output losses of 2^24, 1
    and 1, which add up to 16777216 in this order and to 16777218 in the
    reverse order.  The same happens in [discriminator_loss]. *)
Lemma loss_totals_order_sensitive :
  let a := vector [Demo.f32 (-4095)] in
  let z := vector [Demo.f32 0] in
  let one := vector [Demo.f32 1] in
  let big := vector [Demo.f32 4096] in
  Permutation [a; z; z] [z; z; a]
  /\ fst (generator_loss [a; z; z]) = PyTensor (Demo.f32 16777216)
  /\ fst (generator_loss [z; z; a]) = PyTensor (Demo.f32 16777218)
  /\ fst (generator_loss [z; z; a]) <> fst (generator_loss [a; z; z])
  /\ Permutation (zip [one; one; one] [big; one; one]) (zip [one; one; one] [one; one; big])
  /\ fst (fst (discriminator_loss [one; one; one] [big; one; one]))
     = PyTensor (Demo.f32 16777216)
  /\ fst (fst (discriminator_loss [one; one; one] [one; one; big]))
     = PyTensor (Demo.f32 16777218)
  /\ ~ (forall outputs outputs' reals gens reals' gens' : list (tensor Binary32.float32),
           Permutation outputs outputs' ->
           List.length reals = List.length gens ->
           List.length reals' = List.length gens' ->
           Permutation (zip reals gens) (zip reals' gens') ->
           fst (generator_loss outputs') = fst (generator_loss outputs)
           /\ fst (fst (discriminator_loss reals' gens'))
              = fst (fst (discriminator_loss reals gens))).
Proof.
  cbv zeta.
  assert (P1 : forall (A : Type) (x y : A), Permutation [x; y; y] [y; y; x]).
  { intros A x y. apply perm_trans with [y; x; y]; [apply perm_swap |].
    apply perm_skip, perm_swap. }
  split; [apply P1 |].
  split; [vm_compute; reflexivity |].
  split; [vm_compute; reflexivity |].
  split; [vm_compute; discriminate |].
  split; [cbn [zip]; apply P1 |].
  split; [vm_compute; reflexivity |].
  split; [vm_compute; reflexivity |].
  intros Hall.
  destruct (Hall _ _ [] [] [] [] (P1 _ (vector [Demo.f32 (-4095)]) (vector [Demo.f32 0]))
                 eq_refl eq_refl (perm_nil _)) as [Hgen _].
  vm_compute in Hgen. discriminate Hgen.
Qed.

(** * Binary32: zero differences and positive counts *)

Section Binary32Lemmas.
Import Binary32.
Local Open Scope Z_scope.

Lemma digits2_pos_lower (m : positive) : 2 ^ (Zpos (digits2_pos m) - 1) <= Zpos m.
Proof.
  induction m as [m IH | m IH |]; cbn [digits2_pos].
  - rewrite Pos2Z.inj_succ.
    replace (Z.succ (Zpos (digits2_pos m)) - 1) with (Z.succ (Zpos (digits2_pos m) - 1)) by lia.
    rewrite Z.pow_succ_r by lia. lia.
  - rewrite Pos2Z.inj_succ.
    replace (Z.succ (Zpos (digits2_pos m)) - 1) with (Z.succ (Zpos (digits2_pos m) - 1)) by lia.
    rewrite Z.pow_succ_r by lia. lia.
  - cbn. lia.
Qed.

Lemma shr_1_m (mrs : shr_record) :
  0 <= shr_m mrs -> shr_m (shr_1 mrs) = shr_m mrs / 2.
Proof.
  destruct mrs as [m r s]. cbn [shr_m]. intros Hm.
  destruct m as [| [p | p |] | p]; cbn [shr_1 shr_m]; try lia.
  - reflexivity.
  - rewrite Pos2Z.inj_xI. apply Z.div_unique with 1; lia.
  - rewrite Pos2Z.inj_xO. apply Z.div_unique with 0; lia.
  - reflexivity.
Qed.

Lemma iter_pos_shr (p : positive) (mrs : shr_record) :
  0 <= shr_m mrs -> shr_m (iter_pos shr_1 p mrs) = shr_m mrs / 2 ^ Zpos p.
Proof.
  revert mrs. induction p as [p IH | p IH |]; intros mrs Hm; cbn [iter_pos].
  - assert (H1 : 0 <= shr_m (shr_1 mrs)) by (rewrite shr_1_m by lia; apply Z.div_pos; lia).
    assert (H2 : 0 <= shr_m (iter_pos shr_1 p (shr_1 mrs)))
      by (rewrite IH by lia; apply Z.div_pos; [lia | apply Z.pow_pos_nonneg; lia]).
    rewrite IH by lia. rewrite IH by lia. rewrite shr_1_m by lia.
    rewrite !Z.div_div by (try apply Z.pow_pos_nonneg; lia).
    f_equal. rewrite Pos2Z.inj_xI.
    replace (2 * Zpos p + 1) with (1 + Zpos p + Zpos p) by lia.
    rewrite !Z.pow_add_r by lia. lia.
  - assert (H2 : 0 <= shr_m (iter_pos shr_1 p mrs))
      by (rewrite IH by lia; apply Z.div_pos; [lia | apply Z.pow_pos_nonneg; lia]).
    rewrite IH by lia. rewrite IH by lia.
    rewrite !Z.div_div by (try apply Z.pow_pos_nonneg; lia).
    f_equal. replace (Zpos p~0) with (Zpos p + Zpos p) by lia.
    rewrite Z.pow_add_r by lia. reflexivity.
  - rewrite shr_1_m by lia. reflexivity.
Qed.

(** Above the smallest subnormal, rounding keeps a positive mantissa. *)
Lemma shr_fexp_positive (m : positive) (e : Z) (l : location) :
  -149 <= e ->
  0 < shr_m (fst (shr_fexp prec emax (Zpos m) e l))
  /\ -149 <= snd (shr_fexp prec emax (Zpos m) e l).
Proof.
  intros He. unfold shr_fexp, shr.
  assert (Hrec : shr_m (shr_record_of_loc (Zpos m) l) = Zpos m)
    by (destruct l as [| []]; reflexivity).
  destruct (fexp prec emax (Zdigits2 (Zpos m) + e) - e) as [| p | p] eqn:En;
    cbn [fst snd]; rewrite ?Hrec; try (split; lia).
  unfold fexp, emin, prec, emax in En. cbn [Zdigits2] in En.
  assert (Hp : Zpos p = Zpos (digits2_pos m) - 24) by lia.
  rewrite iter_pos_shr by (rewrite Hrec; lia). rewrite Hrec. split; [| lia].
  apply Z.div_str_pos. split; [apply Z.pow_pos_nonneg; lia |].
  apply Z.le_trans with (2 ^ (Zpos (digits2_pos m) - 1)); [| apply digits2_pos_lower].
  apply Z.pow_le_mono_r; lia.
Qed.

Lemma binary_round_aux_positive (sx : bool) (m : positive) (e : Z) (l : location) :
  -149 <= e ->
  (exists m' e', binary_round_aux prec emax sx (Zpos m) e l = S754_finite sx m' e')
  \/ binary_round_aux prec emax sx (Zpos m) e l = S754_infinity sx.
Proof.
  intros He. unfold binary_round_aux.
  destruct (shr_fexp_positive m l He) as [Hm1 He1].
  destruct (shr_fexp prec emax (Zpos m) e l) as [mrs' e'] eqn:E1. cbn [fst snd] in Hm1, He1.
  assert (Hr : 0 < round_nearest_even (shr_m mrs') (loc_of_shr_record mrs')).
  { unfold round_nearest_even.
    destruct (loc_of_shr_record mrs') as [| []]; try lia.
    destruct (Z.even (shr_m mrs')); lia. }
  destruct (round_nearest_even (shr_m mrs') (loc_of_shr_record mrs')) as [| m2 | m2];
    try lia.
  destruct (shr_fexp_positive m2 loc_Exact He1) as [Hm2 _].
  destruct (shr_fexp prec emax (Zpos m2) e' loc_Exact) as [mrs'' e''] eqn:E2.
  cbn [fst] in Hm2.
  destruct (shr_m mrs'') as [| m3 | m3]; try lia.
  destruct (Z.leb e'' (emax - prec)); [left; eauto | right; reflexivity].
Qed.

(** A positive count converts to a positive binary32 number or to
    [+inf]. *)
Lemma of_int_positive (p : positive) :
  (exists m e, (of_int (Zpos p) : float32) = S754_finite false m e)
  \/ (of_int (Zpos p) : float32) = S754_infinity false.
Proof.
  change (of_int (Zpos p) : float32) with (binary_round prec emax false p 0).
  unfold binary_round.
  destruct (shl_align p 0 (fexp prec emax (Zpos (digits2_pos p) + 0))) as [mz ez] eqn:E.
  apply binary_round_aux_positive.
  unfold shl_align in E.
  destruct (fexp prec emax (Zpos (digits2_pos p) + 0) - 0) as [| d | d] eqn:Ed;
    injection E as <- <-; try lia.
  unfold fexp, emin, prec, emax in *. lia.
Qed.

Lemma div_zero_count (n : nat) :
  (0 < n)%nat -> div zero (of_int (Z.of_nat n)) = zero.
Proof.
  intros Hn. destruct n as [| n]; [lia |].
  rewrite Nat2Z.inj_succ, <- Z.add_1_r.
  assert (Hpos : exists p, Z.of_nat n + 1 = Zpos p).
  { destruct (Z.of_nat n + 1) as [| p | p] eqn:E; try lia. eauto. }
  destruct Hpos as [p ->].
  destruct (of_int_positive p) as [(m & e & ->) | ->]; reflexivity.
Qed.

(** Equal finite numbers differ by a zero, whose absolute value is [+0.0]. *)
Lemma abs_sub_equal (x y : float32) :
  eqb x y = true -> is_finite x = true -> SFabs (sub x y) = zero.
Proof.
  intros Hc Hf. unfold eqb, SFeqb in Hc. unfold sub.
  destruct x as [sx | sx | | sx mx ex]; try discriminate Hf;
    destruct y as [sy | sy | | sy my ey]; cbn [SFcompare] in Hc; try discriminate Hc;
    try (destruct sx; discriminate Hc); try (destruct sy; discriminate Hc).
  - destruct sx, sy; reflexivity.
  - assert (Heq : sx = sy /\ ex = ey /\ mx = my).
    { destruct sx, sy; try discriminate Hc;
        destruct (Z.compare ex ey) eqn:Ee; try discriminate Hc;
        apply Z.compare_eq in Ee;
        destruct (Pos.compare_cont Eq mx my) eqn:Em; try discriminate Hc;
        apply Pos.compare_eq in Em; auto. }
    destruct Heq as (-> & -> & ->).
    unfold SFsub. rewrite Z.sub_diag. reflexivity.
Qed.

End Binary32Lemmas.

Section FeatureMatching.
Import Binary32.

Lemma fold_add_zeros (l : list float32) :
  Forall (eq zero) l -> fold_left add l zero = zero.
Proof.
  induction 1 as [| x l <- _ IH]; [reflexivity |]. cbn [fold_left]. exact IH.
Qed.

Lemma l1_loss_equal (x y : tensor float32) :
  elementwise_equal x y -> finite_nonempty x -> wf y -> l1_loss x y = inr zero.
Proof.
  intros [Hs He] (Hx & Hne & Hf) Hy. unfold l1_loss.
  rewrite tmap2_same by assumption. cbn [rbind]. f_equal.
  unfold tmean, tsum. cbn [data fadd fdiv scalar32].
  assert (Hz : Forall (eq zero)
                 (map (fun p => fabs (fsub (fst p) (snd p))) (combine (data x) (data y)))).
  { clear Hx Hy Hne Hs. induction He as [| a b xs ys Hab _ IH]; [constructor |].
    inversion Hf as [| ? ? Ha Hf']; subst.
    cbn [combine map fst snd]. constructor; [| apply IH; exact Hf'].
    symmetry. apply abs_sub_equal; assumption. }
  change (of_int 0 : float32) with zero.
  rewrite fold_add_zeros by exact Hz.
  apply div_zero_count. rewrite length_map, length_combine.
  rewrite <- (Forall2_length He), Nat.min_id.
  destruct (data x); [congruence | cbn; lia].
Qed.

Lemma fm_inner_equal (dr dg : list (tensor float32)) (losses : list float32) :
  Forall2 (fun x y => elementwise_equal x y /\ finite_nonempty x /\ wf y) dr dg ->
  fm_inner (zip dr dg) losses = inr (losses ++ repeat zero (List.length dr)).
Proof.
  intros Hall. revert losses.
  induction Hall as [| x y dr dg (He & Hf & Hy) _ IH]; intros losses.
  - cbn. rewrite app_nil_r. reflexivity.
  - cbn [zip fm_inner]. rewrite (l1_loss_equal He Hf Hy). cbn [rbind].
    rewrite IH. cbn [List.length repeat]. rewrite <- app_assoc. reflexivity.
Qed.

Lemma fm_outer_equal (reals gens : list (list (tensor float32))) (losses : list float32) :
  Forall2 (Forall2 (fun x y => elementwise_equal x y /\ finite_nonempty x /\ wf y))
          reals gens ->
  fm_outer (zip reals gens) losses
  = inr (losses ++ repeat zero (List.length (concat reals))).
Proof.
  intros Hall. revert losses.
  induction Hall as [| dr dg reals gens Hd _ IH]; intros losses.
  - cbn. rewrite app_nil_r. reflexivity.
  - cbn [zip fm_outer]. rewrite (fm_inner_equal _ Hd). cbn [rbind].
    rewrite IH. cbn [concat]. rewrite length_app, repeat_app, app_assoc. reflexivity.
Qed.

Lemma py_sum_zeros (n : nat) :
  py_sum (repeat zero n) = match n with O => PyInt 0 | S _ => PyTensor zero end.
Proof.
  destruct n as [| n]; [reflexivity |].
  unfold py_sum. rewrite fold_py_int by discriminate.
  f_equal. cbn [fadd scalar32]. change (of_int 0 : float32) with zero.
  apply fold_add_zeros. clear. induction (S n); constructor; auto.
Qed.

End FeatureMatching.

Section FeatureMatchingClaims.
Import Binary32.

Lemma elementwise_equal_wf (x y : tensor float32) :
  elementwise_equal x y -> wf x -> wf y.
Proof.
  intros [Hs He] Hx. unfold wf in *. rewrite <- Hs, <- Hx.
  symmetry. apply (Forall2_length He).
Qed.

(** C8, as amended: for every pair of parallel sequences of real and
    generated feature maps that are equal element by element, with every
    entry finite and no feature map empty, [feature_matching_loss] returns
    exactly zero: the [int] 0 when there is no feature map at all, and a
    tensor holding +0.0 otherwise. *)
Theorem feature_matching_loss_of_equal_maps (reals gens : list (list (tensor float32))) :
  Forall2 (Forall2 (fun x y => elementwise_equal x y /\ finite_nonempty x)) reals gens ->
  feature_matching_loss reals gens
  = inr (match concat reals with [] => PyInt 0 | _ :: _ => PyTensor zero end).
Proof.
  intros Hall. unfold feature_matching_loss.
  rewrite (@fm_outer_equal reals gens []).
  - cbn [rbind app]. rewrite py_sum_zeros. destruct (concat reals); reflexivity.
  - eapply Forall2_impl; [| exact Hall]. intros dr dg Hd.
    eapply Forall2_impl; [| exact Hd]. cbv beta. intros x y [He Hf].
    split; [exact He | split; [exact Hf |]].
    apply (elementwise_equal_wf He). apply Hf.
Qed.

(** C8, as stated, fails in binary32: equal feature maps need not give
    zero, since [inf - inf] is a NaN, and so is the mean of an empty feature
    map. *)
Lemma feature_matching_loss_of_equal_maps_nan :
  let x := vector [inf] in
  let e := @vector float32 [] in
  elementwise_equal x x
  /\ feature_matching_loss [[x]] [[x]] = inr (PyTensor nan)
  /\ elementwise_equal e e
  /\ feature_matching_loss [[e]] [[e]] = inr (PyTensor nan)
  /\ is_zero_num (PyTensor nan) = false
  /\ ~ (forall reals gens : list (list (tensor float32)),
           Forall2 (Forall2 elementwise_equal) reals gens ->
           exists v, feature_matching_loss reals gens = inr v /\ is_zero_num v = true).
Proof.
  cbv zeta.
  assert (Hx : elementwise_equal (vector [inf]) (vector [inf])).
  { split; [reflexivity |]. repeat constructor. }
  assert (He : elementwise_equal (@vector float32 []) (vector [])).
  { split; [reflexivity | constructor]. }
  split; [exact Hx |]. split; [vm_compute; reflexivity |].
  split; [exact He |]. split; [vm_compute; reflexivity |].
  split; [reflexivity |].
  intros Hall.
  destruct (Hall [[vector [inf]]] [[vector [inf]]]) as (v & Hv & Hz).
  { repeat constructor; exact Hx. }
  vm_compute in Hv. injection Hv as <-. discriminate Hz.
Qed.

End FeatureMatchingClaims.

(** * The claims at concrete inputs *)

Section Witnesses.
Import Binary32.

Lemma generator_loss_composition_witness :
  exists loss_stft fake2,
    hd_error (backwards (fst (training_step (Demo.model (Some 2%Z)) Demo.batch2 1%Z)))
    = Some (total_generator_loss loss_stft (mean_adv_loss (Demo.model (Some 2%Z)) fake2))
    /\ total_generator_loss loss_stft (mean_adv_loss (Demo.model (Some 2%Z)) fake2)
       = S754_finite false 11206656 (-21).
Proof.
  do 2 eexists. split.
  - refine (proj1 (@generator_loss_composition _ _ (Demo.model (Some 2%Z)) Demo.batch2 1%Z
                     _ _ _ _ _ _ _ _ _ _ _ _ _ _)).
    + discriminate.
    + lazy. reflexivity.
    + lazy. reflexivity.
    + lazy. reflexivity.
  - vm_compute. reflexivity.
Defined.

Lemma training_step_update_order_witness :
  snd (training_step (Demo.model (Some 2%Z)) Demo.batch2 1%Z) = inr tt
  /\ updates (fst (training_step (Demo.model (Some 2%Z)) Demo.batch2 1%Z))
     = [OptimizerStep Gen; OptimizerStep Disc; SchedulerStep Gen; SchedulerStep Disc].
Proof.
  eapply (proj2 (training_step_update_order (Demo.model (Some 2%Z)) Demo.batch2 1%Z)).
  - lazy. reflexivity.
  - lazy. reflexivity.
  - lazy. reflexivity.
  - discriminate.
Defined.

Lemma crop_window_witness :
  exists audio2 fake2 mask2,
    crop (Demo.model (Some 2%Z)) 1%Z
         (mkTensor [2; 1; 4] (map Demo.f32 [1; 2; 3; 4; 5; 6; 0; 0]%Z))
         (mkTensor [2; 1; 4] (map (fun n => of_dyadic n (-1)) [1; 2; 3; 4; 5; 6; 0; 0]%Z))
         (mkTensor [2; 1; 4] (map Demo.f32 [1; 1; 1; 1; 1; 1; 0; 0]%Z))
    = ([], inr (audio2, fake2, mask2))
    /\ shape audio2 = [2; 1; 2] /\ shape fake2 = [2; 1; 2] /\ shape mask2 = [2; 1; 2]
    /\ wf audio2
    /\ nth_error (data audio2) 2 = Some (Demo.f32 6)
    /\ draws_of_period 2 5 = [inr 0%Z; inr 1%Z].
Proof.
  destruct (@crop_window _ _ (Demo.model (Some 2%Z)) Demo.batch2 1%Z
              [ZeroGrad Gen]
              (mkTensor [2; 1; 4] (map Demo.f32 [1; 2; 3; 4; 5; 6; 0; 0]%Z))
              (mkTensor [2; 1; 4] (map (fun n => of_dyadic n (-1)) [1; 2; 3; 4; 5; 6; 0; 0]%Z))
              (mkTensor [2; 1; 4] (map Demo.f32 [1; 1; 1; 1; 1; 1; 0; 0]%Z))
              2 4 2%Z)
    as (start & audio2 & fake2 & mask2 & _ & Hstart & _ & _ & _ & Hcrop & _ & _ & _
        & H1 & H2 & H3 & Hu & Hw & _).
  - vm_compute. reflexivity.
  - reflexivity.
  - reflexivity.
  - reflexivity.
  - lia.
  - unfold int64_max. lia.
  - exists audio2, fake2, mask2. split; [exact Hcrop |].
    specialize (H3 ltac:(lia)).
    destruct (Hw ltac:(lia) _ _ (or_introl eq_refl) eq_refl) as [Hwf [_ Hn]].
    rewrite <- H2, <- H1, H3.
    split; [reflexivity |]. split; [reflexivity |]. split; [reflexivity |].
    split; [| split].
    + exact Hwf.
    + transitivity (nth_error
                      (data (mkTensor [2; 1; 4] (map Demo.f32 [1; 2; 3; 4; 5; 6; 0; 0]%Z)))
                      (1 * 4 + Z.to_nat start + 0)).
      * exact (Hn 1 0 ltac:(lia) ltac:(lia)).
      * rewrite Hstart. vm_compute. reflexivity.
    + exact (Hu 5%Z).
Defined.


Lemma shape_mismatch_aborts_before_updates_witness :
  training_step Demo.bad_model Demo.batch1 0%Z = ([ZeroGrad Gen], inl AssertionError)
  /\ snd (training_step (Demo.model (Some 2%Z)) Demo.batch_stereo 1%Z) = inl AssertionError
  /\ updates (fst (training_step (Demo.model (Some 2%Z)) Demo.batch_stereo 1%Z)) = [].
Proof.
  split; [| split].
  - eapply (proj1 (shape_mismatch_aborts_before_updates Demo.bad_model Demo.batch1 0%Z)).
    + lazy. reflexivity.
    + lazy. reflexivity.
    + vm_compute. discriminate.
  - pose proof (proj1 (proj2 (shape_mismatch_aborts_before_updates
                                (Demo.model (Some 2%Z)) Demo.batch_stereo 1%Z))) as W.
    erewrite W; [reflexivity | try (lazy; reflexivity) ..].
    cbn [shape]. intros [_ Hne]. discriminate Hne.
  - apply (proj2 (proj2 (shape_mismatch_aborts_before_updates
                           (Demo.model (Some 2%Z)) Demo.batch_stereo 1%Z))).
    vm_compute. reflexivity.
Defined.

Lemma division_by_ensemble_size_witness :
  snd (training_step (Demo.model None) Demo.batch1 0%Z) = inr tt
  /\ List.length (backwards (fst (training_step (Demo.model None) Demo.batch1 0%Z))) = 2
  /\ snd (training_step Demo.lonely_model Demo.batch1 0%Z) = inl ZeroDivisionError.
Proof.
  split; [| split].
  - eapply (@division_by_ensemble_size _ _ (Demo.model None) Demo.batch1 0%Z);
      try (lazy; reflexivity). discriminate.
  - edestruct (@division_by_ensemble_size _ _ (Demo.model None) Demo.batch1 0%Z)
      as [Hne _]; [lazy; reflexivity .. |].
    destruct Hne as [_ Hb]; [discriminate |]. rewrite Hb. reflexivity.
  - edestruct (@division_by_ensemble_size _ _ Demo.lonely_model Demo.batch1 0%Z)
      as [_ Hnil]; [lazy; reflexivity .. |].
    destruct Hnil as [Hz _]; [reflexivity |]. rewrite Hz. reflexivity.
Defined.

Lemma loss_totals_permutation_exact_witness :
  let a := vector [Q2Qc (3 # 1)] in
  let z := vector [Q2Qc (1 # 2)] in
  fst (generator_loss [z; a; a]) = fst (generator_loss [a; z; a])
  /\ fst (fst (discriminator_loss [z; a] [a; a])) = fst (fst (discriminator_loss [a; z] [a; a]))
  /\ Permutation (snd (fst (discriminator_loss [a; z] [a; a])))
                 (snd (fst (discriminator_loss [z; a] [a; a])))
  /\ Permutation (snd (discriminator_loss [a; z] [a; a]))
                 (snd (discriminator_loss [z; a] [a; a])).
Proof.
  cbv zeta.
  destruct (@loss_totals_permutation_exact Qc _
              [vector [Q2Qc (3 # 1)]; vector [Q2Qc (1 # 2)]; vector [Q2Qc (3 # 1)]]
              [vector [Q2Qc (1 # 2)]; vector [Q2Qc (3 # 1)]; vector [Q2Qc (3 # 1)]]
              [vector [Q2Qc (3 # 1)]; vector [Q2Qc (1 # 2)]]
              [vector [Q2Qc (3 # 1)]; vector [Q2Qc (3 # 1)]]
              [vector [Q2Qc (1 # 2)]; vector [Q2Qc (3 # 1)]]
              [vector [Q2Qc (3 # 1)]; vector [Q2Qc (3 # 1)]])
    as (Hg & _ & Hd & Hr & Hf & _).
  - exact Qcplus_comm.
  - exact Qcplus_assoc.
  - apply perm_swap.
  - reflexivity.
  - reflexivity.
  - apply perm_swap.
  - split; [exact Hg |]. split; [exact Hd |]. split; [exact Hr | exact Hf].
Defined.

Lemma feature_matching_loss_of_equal_maps_witness :
  let x := mkTensor [1; 2] [Demo.f32 1; Demo.f32 (-2)] in
  let y := vector [Demo.f32 3] in
  feature_matching_loss [[x; y]; [y]] [[x; y]; [y]] = inr (PyTensor zero).
Proof.
  cbv zeta.
  apply (@feature_matching_loss_of_equal_maps
           [[mkTensor [1; 2] [Demo.f32 1; Demo.f32 (-2)]; vector [Demo.f32 3]];
            [vector [Demo.f32 3]]]
           [[mkTensor [1; 2] [Demo.f32 1; Demo.f32 (-2)]; vector [Demo.f32 3]];
            [vector [Demo.f32 3]]]).
  repeat constructor; try discriminate.
Defined.

End Witnesses.

(** * The events of a completed training step *)

Section Completed.
Context {F : Type} `{Scalar F}.
Variable self : HiFiGANModel F.

(** A training step that returns has run every phase, and its trace is the
    five events of the preamble, the generator phase, the discriminator
    phase and the two scheduler steps. *)
Lemma training_step_complete (b : batch F) (u : Z) :
  snd (training_step self b u) = inr tt ->
  exists audio1 fake1 mask loss_stft loss_mel audio2 fake2 mask2,
    masked_forward self b = ([ZeroGrad Gen], inr (audio1, fake1, mask))
    /\ monitored_losses self audio1 fake1
       = ([Log "train/generator/stft" (PyTensor loss_stft) (step_flags true);
           NoGradEnter;
           Log "train/generator/mel" (PyTensor loss_mel) (step_flags true);
           NoGradExit],
          inr loss_stft)
    /\ crop self u audio1 fake1 mask = ([], inr (audio2, fake2, mask2))
    /\ discriminators self <> []
    /\ fst (training_step self b u)
       = [ZeroGrad Gen;
          Log "train/generator/stft" (PyTensor loss_stft) (step_flags true);
          NoGradEnter;
          Log "train/generator/mel" (PyTensor loss_mel) (step_flags true);
          NoGradExit]
         ++ generator_events self loss_stft fake2
         ++ discriminator_events self audio2 fake2
         ++ [SchedulerStep Gen; SchedulerStep Disc].
Proof.
  rewrite training_step_eq.
  destruct (masked_forward self b) as [tr1 [e | [[audio1 fake1] mask]]] eqn:E1;
    [cbn [snd]; discriminate |].
  destruct (monitored_losses self audio1 fake1) as [tr2 [e | loss_stft]] eqn:E2;
    [cbn [snd]; discriminate |].
  pose proof (crop_trace self u audio1 fake1 mask) as E3t.
  destruct (crop self u audio1 fake1 mask) as [tr3 [e | [[audio2 fake2] mask2]]] eqn:E3;
    [cbn [snd]; discriminate |].
  cbn [fst] in E3t. subst tr3.
  destruct (discriminators self) as [| d ds] eqn:Ed; [cbn [snd]; discriminate |].
  intros _.
  destruct (masked_forward_inr self b E1) as (-> & _).
  destruct (monitored_losses_inr self audio1 fake1 E2) as (a & f & lm & _ & _ & _ & _ & ->).
  exists audio1, fake1, mask, loss_stft, lm, audio2, fake2, mask2.
  split; [reflexivity |]. split; [exact E2 |]. split; [exact E3 |].
  split; [discriminate |]. reflexivity.
Qed.

End Completed.

(** * The optimisation protocol *)

Section Protocol.
Context {F : Type} `{Scalar F}.
Variable self : HiFiGANModel F.

Lemma protocol_app (a b : list (event F)) : protocol (a ++ b) = protocol a ++ protocol b.
Proof. apply filter_app. Qed.

Lemma scopes_app (a b : list (event F)) : scopes (a ++ b) = scopes a ++ scopes b.
Proof. apply filter_app. Qed.

Lemma log_keys_app (a b : list (event F)) : log_keys (a ++ b) = log_keys a ++ log_keys b.
Proof. apply flat_map_app. Qed.

Lemma protocol_map_logs {X} (f : X -> event F) (l : list X) :
  (forall x, is_protocol (f x) = false) -> protocol (map f l) = [].
Proof.
  intros Hf. induction l as [| x l IH]; [reflexivity |].
  cbn [map]. unfold protocol in *. cbn [filter]. rewrite Hf. exact IH.
Qed.

Lemma scopes_map_logs {X} (f : X -> event F) (l : list X) :
  (forall x, is_scope (f x) = false) -> scopes (map f l) = [].
Proof.
  intros Hf. induction l as [| x l IH]; [reflexivity |].
  cbn [map]. unfold scopes in *. cbn [filter]. rewrite Hf. exact IH.
Qed.

Lemma generator_events_protocol (ls : F) (fake : tensor F) :
  protocol (generator_events self ls fake)
  = [ManualBackward (total_generator_loss ls (mean_adv_loss self fake)); OptimizerStep Gen].
Proof.
  unfold generator_events. rewrite protocol_app, protocol_map_logs by reflexivity.
  reflexivity.
Qed.

Lemma discriminator_events_protocol (real fake : tensor F) :
  protocol (discriminator_events self real fake)
  = [ZeroGrad Disc; ManualBackward (mean_disc_loss self real fake); OptimizerStep Disc].
Proof.
  unfold discriminator_events.
  change (ZeroGrad Disc :: ?l ++ ?r) with ([ZeroGrad Disc] ++ l ++ r).
  rewrite !protocol_app, protocol_map_logs by reflexivity. reflexivity.
Qed.

(** The preamble resets the generator's gradients and touches nothing else
    of the protocol; when the mask cannot be indexed it has not even done
    that. *)
Lemma masked_forward_protocol (b : batch F) :
  protocol (fst (masked_forward self b)) = []
  \/ protocol (fst (masked_forward self b)) = [ZeroGrad Gen].
Proof.
  rewrite masked_forward_eq.
  cbv zeta. repeat (case_scrutinee; cbn [fst]); auto.
Qed.

Lemma monitored_losses_protocol (a f : tensor F) :
  protocol (fst (monitored_losses self a f)) = [].
Proof.
  rewrite monitored_losses_eq.
  cbv zeta. repeat (case_scrutinee; cbn [fst]); reflexivity.
Qed.

(** X1: the order of the optimisation protocol inside one training step.  A
    step that returns has, in this order, reset the generator's gradients,
    run the generator's backward pass, stepped the generator's optimizer,
    reset the discriminators' gradients, run their backward pass, stepped
    their optimizer and stepped the two schedulers.  A step that raises has
    at most reset the generator's gradients. *)
Theorem training_step_protocol (b : batch F) (u : Z) :
  (snd (training_step self b u) = inr tt
   /\ exists g d,
       protocol (fst (training_step self b u))
       = [ZeroGrad Gen; ManualBackward g; OptimizerStep Gen;
          ZeroGrad Disc; ManualBackward d; OptimizerStep Disc;
          SchedulerStep Gen; SchedulerStep Disc])
  \/ ((exists e, snd (training_step self b u) = inl e)
      /\ (protocol (fst (training_step self b u)) = []
          \/ protocol (fst (training_step self b u)) = [ZeroGrad Gen])).
Proof.
  destruct (snd (training_step self b u)) as [e | []] eqn:Eo.
  - right. split; [eauto |].
    rewrite training_step_eq in Eo |- *.
    pose proof (masked_forward_protocol b) as P1.
    destruct (masked_forward self b) as [tr1 [e1 | [[audio1 fake1] mask]]];
      cbn [fst snd] in *; [exact P1 |].
    pose proof (monitored_losses_protocol audio1 fake1) as P2.
    destruct (monitored_losses self audio1 fake1) as [tr2 [e2 | loss_stft]];
      cbn [fst snd] in *.
    { rewrite protocol_app, P2, app_nil_r. exact P1. }
    pose proof (crop_trace self u audio1 fake1 mask) as P3.
    destruct (crop self u audio1 fake1 mask) as [tr3 [e3 | [[audio2 fake2] mask2]]];
      cbn [fst snd] in *; subst tr3.
    { rewrite !protocol_app, P2, !app_nil_r. exact P1. }
    destruct (discriminators self) as [| d ds]; cbn [fst snd] in *; [| discriminate].
    rewrite !protocol_app, P2, !app_nil_r. exact P1.
  - left. split; [reflexivity |].
    destruct (training_step_complete self b u Eo)
      as (a1 & f1 & k & ls & lm & a2 & f2 & k2 & _ & _ & _ & _ & ->).
    rewrite !protocol_app, generator_events_protocol, discriminator_events_protocol.
    eexists. eexists. reflexivity.
Qed.

(** X2: the no-gradient scope of a training step is always closed again.
    Whatever the outcome, the trace holds either no scope event or one
    [NoGradEnter] followed by one [NoGradExit]; a step that returns has
    entered and left the scope once, and the only event inside it is the log
    of the mel loss.  The validation step opens no scope of its own. *)
Theorem no_grad_scope_is_closed (b : batch F) (u : Z) :
  (scopes (fst (training_step self b u)) = []
   \/ scopes (fst (training_step self b u)) = [NoGradEnter; NoGradExit])
  /\ (snd (training_step self b u) = inr tt ->
      exists pre loss_mel post,
        fst (training_step self b u)
        = pre ++ [NoGradEnter;
                  Log "train/generator/mel" (PyTensor loss_mel) (step_flags true);
                  NoGradExit] ++ post
        /\ scopes pre = [] /\ scopes post = [])
  /\ scopes (fst (validation_step self b)) = [].
Proof.
  split; [| split].
  - rewrite training_step_eq.
    assert (P1 : scopes (fst (masked_forward self b)) = []).
    { rewrite masked_forward_eq. cbv zeta. repeat (case_scrutinee; cbn [fst]); reflexivity. }
    destruct (masked_forward self b) as [tr1 [e1 | [[audio1 fake1] mask]]];
      cbn [fst] in *; [left; exact P1 |].
    assert (P2 : scopes (fst (monitored_losses self audio1 fake1)) = []
                 \/ scopes (fst (monitored_losses self audio1 fake1))
                    = [NoGradEnter; NoGradExit]).
    { rewrite monitored_losses_eq. cbv zeta. repeat (case_scrutinee; cbn [fst]); auto. }
    assert (PG : forall ls f, scopes (generator_events self ls f) = []).
    { intros ls f. unfold generator_events.
      rewrite scopes_app, scopes_map_logs by reflexivity. reflexivity. }
    assert (PD : forall a f, scopes (discriminator_events self a f) = []).
    { intros a f. unfold discriminator_events.
      change (ZeroGrad Disc :: ?l ++ ?r) with ([ZeroGrad Disc] ++ l ++ r).
      rewrite !scopes_app, scopes_map_logs by reflexivity. reflexivity. }
    destruct (monitored_losses self audio1 fake1) as [tr2 [e2 | loss_stft]];
      cbn [fst] in *.
    { rewrite scopes_app, P1. exact P2. }
    pose proof (crop_trace self u audio1 fake1 mask) as P3.
    destruct (crop self u audio1 fake1 mask) as [tr3 [e3 | [[audio2 fake2] mask2]]];
      cbn [fst] in *; subst tr3.
    { rewrite !scopes_app, P1, app_nil_r. exact P2. }
    destruct (discriminators self) as [| d ds]; cbn [fst].
    { rewrite !scopes_app, P1, app_nil_r. exact P2. }
    rewrite !scopes_app, P1, PG, PD. cbn [app scopes filter is_scope].
    rewrite !app_nil_r. exact P2.
  - intros Hok.
    destruct (training_step_complete self b u Hok)
      as (a1 & f1 & k & ls & lm & a2 & f2 & k2 & _ & _ & _ & _ & ->).
    exists [ZeroGrad Gen; Log "train/generator/stft" (PyTensor ls) (step_flags true)], lm,
           (generator_events self ls f2 ++ discriminator_events self a2 f2
              ++ [SchedulerStep Gen; SchedulerStep Disc]).
    split; [reflexivity |]. split; [reflexivity |].
    unfold generator_events, discriminator_events.
    change (ZeroGrad Disc :: ?l ++ ?r) with ([ZeroGrad Disc] ++ l ++ r).
    rewrite !scopes_app, !scopes_map_logs by reflexivity. reflexivity.
  - pose proof (validation_step_reports self b) as Hr.
    induction (fst (validation_step self b)) as [| ev tr IH]; [reflexivity |].
    cbn [forallb] in Hr. apply andb_true_iff in Hr as [Hev Htr].
    unfold scopes in *. cbn [filter].
    destruct ev; try discriminate Hev; cbn [is_scope]; apply IH; exact Htr.
Qed.

End Protocol.

(** * Step counts over a run *)

Section Counts.
Context {F : Type} `{Scalar F}.
Variable self : HiFiGANModel F.

Lemma optimizer_steps_updates (o : party) (tr : list (event F)) :
  optimizer_steps o (updates tr) = optimizer_steps o tr.
Proof.
  unfold optimizer_steps, updates. induction tr as [| ev tr IH]; [reflexivity |].
  cbn [filter]. destruct ev; cbn [is_update filter]; try exact IH;
    destruct (party_eq_dec o o0); cbn [List.length]; rewrite ?IH; reflexivity.
Qed.

Lemma scheduler_steps_updates (o : party) (tr : list (event F)) :
  scheduler_steps o (updates tr) = scheduler_steps o tr.
Proof.
  unfold scheduler_steps, updates. induction tr as [| ev tr IH]; [reflexivity |].
  cbn [filter]. destruct ev; cbn [is_update filter]; try exact IH;
    destruct (party_eq_dec o o0); cbn [List.length]; rewrite ?IH; reflexivity.
Qed.

Lemma run_call_counts (c : call F) (o : party) :
  optimizer_steps o (fst (run_call self c)) = completed_training self [c]
  /\ scheduler_steps o (fst (run_call self c)) = completed_training self [c].
Proof.
  unfold completed_training, returned. cbn [filter].
  destruct c as [b u | b]; cbn [run_call].
  - rewrite <- optimizer_steps_updates, <- scheduler_steps_updates.
    destruct (training_step_outcomes self b u) as [(Hok & Hup & _) | ((e & He) & Hs & _)].
    + rewrite Hok, Hup. destruct o; split; reflexivity.
    + rewrite He, Hs. split; reflexivity.
  - pose proof (validation_step_reports self b) as Hr.
    destruct (reports_leave_optimizers o _ Hr) as (Ho & Hs & _). rewrite Ho, Hs.
    split; reflexivity.
Qed.

(** X3: over any run of training and validation steps, whether they
    returned or raised, both optimizers and both schedulers have stepped
    exactly once per training step that returned.  So each scheduler has
    stepped as often as its optimizer, and the two optimizers as often as
    each other. *)
Theorem steps_per_completed_training (calls : list (call F)) (o : party) :
  optimizer_steps o (history self calls) = completed_training self calls
  /\ scheduler_steps o (history self calls) = completed_training self calls.
Proof.
  induction calls as [| c calls [IHo IHs]]; [split; reflexivity |].
  change (history self (c :: calls)) with (fst (run_call self c) ++ history self calls).
  rewrite optimizer_steps_app, scheduler_steps_app, IHo, IHs.
  destruct (run_call_counts c o) as [-> ->].
  unfold completed_training. cbn [filter].
  destruct (match c with Train _ _ => returned self c | Validate _ => false end);
    split; reflexivity.
Qed.

End Counts.

(** * What a step can raise *)

Section Errors.

Lemma index_colon_none_colon_error {A} (t : tensor A) e :
  index_colon_none_colon t = inl e -> e = IndexError.
Proof. unfold index_colon_none_colon. destruct (shape t) as [| ? [| ? ?]]; congruence. Qed.

Lemma squeeze1_error {A} (t : tensor A) e : squeeze1 t = inl e -> e = IndexError.
Proof. unfold squeeze1. destruct (shape t) as [| ? [| ? ?]]; congruence. Qed.

Lemma shape_at_error {A} (t : tensor A) i e : shape_at t i = inl e -> e = IndexError.
Proof. unfold shape_at. destruct (nth_error (shape t) i); congruence. Qed.

Lemma shape_last_error {A} (t : tensor A) e : shape_last t = inl e -> e = IndexError.
Proof. unfold shape_last. destruct (rev (shape t)); congruence. Qed.

Lemma slice_last_error {A} (a b : Z) (t : tensor A) e :
  slice_last a b t = inl e -> e = IndexError.
Proof. unfold slice_last. destruct (rev (shape t)); congruence. Qed.

Lemma tmap2_error {A B C} (f : A -> B -> C) (x : tensor A) (y : tensor B) e :
  tmap2 f x y = inl e -> e = RuntimeError /\ broadcast_shapes (shape x) (shape y) = None.
Proof.
  unfold tmap2. destruct (broadcast_shapes (shape x) (shape y)); [discriminate |].
  intros E. injection E as <-. split; reflexivity.
Qed.

Lemma l1_loss_error {F} `{Scalar F} (x y : tensor F) e :
  l1_loss x y = inl e -> e = RuntimeError /\ broadcast_shapes (shape x) (shape y) = None.
Proof.
  unfold l1_loss. destruct (tmap2 _ x y) as [e' | d] eqn:E; [| discriminate].
  cbn [rbind]. intros E'. injection E' as <-. exact (tmap2_error _ _ _ E).
Qed.

Lemma randint_error (low high u : Z) e :
  randint low high u = inl e ->
  e = RuntimeError \/ (e = ValueError /\ in_int64 low && in_int64 high = false).
Proof.
  unfold randint. destruct (in_int64 low && in_int64 high).
  - destruct (low <? high)%Z; [discriminate |]. intros E. injection E as <-. left. reflexivity.
  - intros E. injection E as <-. right. split; reflexivity.
Qed.

End Errors.

Ltac name_error :=
  repeat match goal with
         | H : index_colon_none_colon _ = inl _ |- _ =>
             apply index_colon_none_colon_error in H; subst
         | H : squeeze1 _ = inl _ |- _ => apply squeeze1_error in H; subst
         | H : shape_at _ _ = inl _ |- _ => apply shape_at_error in H; subst
         | H : shape_last _ = inl _ |- _ => apply shape_last_error in H; subst
         | H : slice_last _ _ _ = inl _ |- _ => apply slice_last_error in H; subst
         | H : tmap2 _ _ _ = inl _ |- _ => apply tmap2_error in H; destruct H as [? _]; subst
         | H : l1_loss _ _ = inl _ |- _ => apply l1_loss_error in H; destruct H as [? _]; subst
         | H : randint _ _ _ = inl _ |- _ =>
             apply randint_error in H; destruct H as [? | [? ?]]; subst
         end.

Section ErrorClaims.
Context {F : Type} `{Scalar F}.
Variable self : HiFiGANModel F.





End ErrorClaims.

(** * The keys a training step logs *)

Section Keys.

Lemma append_prefix_inj (p a b : string) : String.append p a = String.append p b -> a = b.
Proof.
  induction p as [| c p IH]; cbn [String.append]; intros E; [exact E |].
  injection E as E. exact (IH E).
Qed.

Lemma NoDup_map_append (p : string) (names : list string) :
  NoDup names -> NoDup (map (String.append p) names).
Proof.
  induction 1 as [| x l Hx _ IH]; cbn [map]; constructor; [| exact IH].
  intros Hin. apply in_map_iff in Hin as (y & E & Hy).
  apply append_prefix_inj in E. subst y. exact (Hx Hy).
Qed.

Lemma step_keys_distinct (names : list string) :
  NoDup (step_keys names) <-> NoDup names /\ ~ In "all"%string names.
Proof.
  unfold step_keys. split.
  - intros Hnd. apply NoDup_app_remove_l in Hnd. apply NoDup_app_remove_l in Hnd.
    split.
    + apply NoDup_app_remove_r in Hnd. exact (NoDup_map_inv _ _ Hnd).
    + intros Hall. apply NoDup_remove_2 in Hnd. apply Hnd.
      rewrite app_nil_r. apply in_map_iff. exists "all"%string. split; [reflexivity | exact Hall].
  - intros [Hnd Hall].
    apply NoDup_app.
    + constructor; [| constructor; [intros [] | constructor]].
      intros [E | []]. discriminate E.
    + apply NoDup_app; [apply NoDup_map_append, Hnd | |].
      * apply NoDup_app; [apply NoDup_map_append, Hnd | constructor; [intros [] | constructor] |].
        intros k Hk [E | []]. subst k.
        apply in_map_iff in Hk as (y & E & Hy).
        change "train/discriminator/all"%string
          with (String.append "train/discriminator/" "all") in E.
        apply append_prefix_inj in E. subst y. exact (Hall Hy).
      * intros k Hk Hk'. apply in_map_iff in Hk as (y & <- & _).
        apply in_app_or in Hk' as [Hk' | [E | []]].
        -- apply in_map_iff in Hk' as (z & E & _). cbn [String.append] in E. discriminate E.
        -- cbn [String.append] in E. discriminate E.
    + intros k [<- | [<- | []]] Hk;
        apply in_app_or in Hk as [Hk | Hk];
        try (apply in_map_iff in Hk as (y & E & _); cbn [String.append] in E; discriminate E);
        apply in_app_or in Hk as [Hk | [E | []]];
        try (apply in_map_iff in Hk as (y & E & _); cbn [String.append] in E; discriminate E);
        discriminate E.
Qed.

End Keys.

Section KeyClaims.
Context {F : Type} `{Scalar F}.
Variable self : HiFiGANModel F.

Lemma log_keys_adv (fake : tensor F) (ds : list (string * discriminator F)) :
  log_keys (map (adv_log fake) ds) = map (String.append "train/generator/adv_") (map fst ds).
Proof. induction ds as [| d ds IH]; [reflexivity |]. cbn. f_equal. exact IH. Qed.

Lemma log_keys_disc (real fake : tensor F) (ds : list (string * discriminator F)) :
  log_keys (map (disc_log real fake) ds)
  = map (String.append "train/discriminator/") (map fst ds).
Proof. induction ds as [| d ds IH]; [reflexivity |]. cbn. f_equal. exact IH. Qed.

(** X5: the keys a completed training step logs, in order: the STFT loss,
    the mel loss, one adversarial loss per discriminator under
    [train/generator/adv_<name>], one discriminator loss per discriminator
    under [train/discriminator/<name>], and the combined discriminator loss
    under [train/discriminator/all].  These keys are pairwise distinct
    exactly when the discriminator names are distinct and none of them is
    [all]: a discriminator called [all] has its own loss logged under the key
    of the combined one. *)
Theorem training_step_log_keys (b : batch F) (u : Z) :
  snd (training_step self b u) = inr tt ->
  log_keys (fst (training_step self b u))
  = ["train/generator/stft"%string; "train/generator/mel"%string]
      ++ map (String.append "train/generator/adv_") (map fst (discriminators self))
      ++ map (String.append "train/discriminator/") (map fst (discriminators self))
      ++ ["train/discriminator/all"%string]
  /\ (NoDup (log_keys (fst (training_step self b u)))
      <-> NoDup (map fst (discriminators self))
          /\ ~ In "all"%string (map fst (discriminators self))).
Proof.
  intros Hok.
  destruct (training_step_complete self b u Hok)
    as (a1 & f1 & k & ls & lm & a2 & f2 & k2 & _ & _ & _ & _ & Htr).
  assert (Hkeys : log_keys (fst (training_step self b u))
                  = step_keys (map fst (discriminators self))).
  { rewrite Htr. unfold generator_events, discriminator_events.
    change (ZeroGrad Disc :: ?l ++ ?r) with ([ZeroGrad Disc] ++ l ++ r).
    rewrite !log_keys_app, log_keys_adv, log_keys_disc. cbn [log_keys flat_map app].
    unfold step_keys. cbn [app]. rewrite <- !app_assoc. reflexivity. }
  split; [exact Hkeys |]. rewrite Hkeys. apply step_keys_distinct.
Qed.

End KeyClaims.

(** * Logged and backpropagated losses *)

Section LoggedLosses.
Context {F : Type} `{Scalar F}.
Variable self : HiFiGANModel F.

Lemma log_values_app (a b : list (event F)) :
  log_values (a ++ b) = log_values a ++ log_values b.
Proof. apply flat_map_app. Qed.

Lemma log_values_adv (fake : tensor F) (ds : list (string * discriminator F)) :
  log_values (map (adv_log fake) ds) = map PyTensor (map (adv_loss fake) ds).
Proof. induction ds as [| d ds IH]; [reflexivity |]. cbn. f_equal. exact IH. Qed.

Lemma log_values_disc (real fake : tensor F) (ds : list (string * discriminator F)) :
  log_values (map (disc_log real fake) ds) = map PyTensor (map (disc_loss real fake) ds).
Proof. induction ds as [| d ds IH]; [reflexivity |]. cbn. f_equal. exact IH. Qed.

(** X6: the losses a completed training step backpropagates can be
    recomputed from what it logs.  It logs, in order, the STFT loss, the mel
    loss, one adversarial loss per discriminator, one discriminator loss per
    discriminator and the combined discriminator loss.  The generator's
    backward pass gets 2.5 times the logged STFT loss plus the mean of the
    logged adversarial losses; the discriminators' backward pass gets the
    mean of the logged discriminator losses, which is also the value logged
    as the combined loss.  The logged mel loss enters neither. *)
Theorem backpropagated_from_logged (b : batch F) (u : Z) :
  snd (training_step self b u) = inr tt ->
  exists loss_stft loss_mel advs discs,
    log_values (fst (training_step self b u))
    = [PyTensor loss_stft; PyTensor loss_mel]
        ++ map PyTensor advs ++ map PyTensor discs
        ++ [PyTensor (fdiv (fold_left fadd discs (of_int 0))
                           (of_int (Z.of_nat (List.length discs))))]
    /\ List.length advs = List.length (discriminators self)
    /\ List.length discs = List.length (discriminators self)
    /\ backwards (fst (training_step self b u))
       = [fadd (fmul loss_stft (of_dyadic 5 (-1)))
               (fdiv (fold_left fadd advs (of_int 0))
                     (of_int (Z.of_nat (List.length advs))));
          fdiv (fold_left fadd discs (of_int 0))
               (of_int (Z.of_nat (List.length discs)))].
Proof.
  intros Hok.
  destruct (training_step_complete self b u Hok)
    as (a1 & f1 & k & ls & lm & a2 & f2 & k2 & _ & _ & _ & _ & Htr).
  exists ls, lm, (map (adv_loss f2) (discriminators self)),
         (map (disc_loss a2 f2) (discriminators self)).
  rewrite !length_map. split; [| split; [reflexivity | split; [reflexivity |]]].
  - rewrite Htr. unfold generator_events, discriminator_events.
    change (ZeroGrad Disc :: ?l ++ ?r) with ([ZeroGrad Disc] ++ l ++ r).
    rewrite !log_values_app, log_values_adv, log_values_disc.
    cbn [log_values flat_map app]. rewrite <- !app_assoc. reflexivity.
  - rewrite Htr, !backwards_app.
    rewrite generator_events_backwards, discriminator_events_backwards. reflexivity.
Qed.

(** X7: without a crop the random generator is not consulted.  When no
    [crop_length] is configured, or the time dimension of the masked audio
    does not exceed it, the training step is the same for every draw. *)
Theorem uncropped_step_ignores_draw (b : batch F) (u u' : Z) :
  (forall c tr audio1 fake1 mask time,
      crop_length self = Some c ->
      masked_forward self b = (tr, inr (audio1, fake1, mask)) ->
      shape_at audio1 2 = inr time ->
      (Z.of_nat time <= c)%Z) ->
  training_step self b u = training_step self b u'.
Proof.
  intros Hno. rewrite !training_step_eq.
  destruct (masked_forward self b) as [tr1 [e | [[audio1 fake1] mask]]] eqn:E1;
    [reflexivity |].
  assert (Hc : crop self u audio1 fake1 mask = crop self u' audio1 fake1 mask).
  { unfold crop. destruct (crop_length self) as [c |] eqn:Ec; [| reflexivity].
    run_step. destruct (shape_at audio1 2) as [e | time] eqn:Et; [reflexivity |].
    specialize (Hno c tr1 audio1 fake1 mask time eq_refl eq_refl Et).
    destruct (Z.ltb_spec c (Z.of_nat time)); [lia | reflexivity]. }
  rewrite Hc. reflexivity.
Qed.

End LoggedLosses.

(** * The validation step *)

Section Validation.
Context {F : Type} `{Scalar F}.
Variable self : HiFiGANModel F.

(** [validation_step] without the monad: every operation that can raise
    comes before the first event. *)
Lemma validation_step_eq (b : batch F) :
  validation_step self b
  = match index_colon_none_colon (sequence_mask self (lengths b)) with
    | inl e => ([], inl e)
    | inr mask =>
        match squeeze1 (audio b) with
        | inl e => ([], inl e)
        | inr sq =>
            let y_g_hat0 := generator self (mel_transforms_input self sq) in
            if shape_eq_dec (shape y_g_hat0) (shape (audio b)) then
              match tmap2 fmul (audio b) (to_float32 mask) with
              | inl e => ([], inl e)
              | inr y =>
                  match tmap2 fmul y_g_hat0 (to_float32 mask) with
                  | inl e => ([], inl e)
                  | inr y_g_hat =>
                      match squeeze1 y with
                      | inl e => ([], inl e)
                      | inr y_sq =>
                          match squeeze1 y_g_hat with
                          | inl e => ([], inl e)
                          | inr y_g_hat_sq =>
                              match l1_loss (mel_transforms_loss self y_sq)
                                            (mel_transforms_loss self y_g_hat_sq) with
                              | inl e => ([], inl e)
                              | inr loss_mel =>
                                  ([Log "val/metrics/mel" (PyTensor loss_mel) epoch_flags;
                                    ReportValMetrics y_g_hat y (lengths b)],
                                   inr tt)
                              end
                          end
                      end
                  end
              end
            else ([], inl AssertionError)
        end
    end.
Proof.
  unfold validation_step. run_step.
  repeat (case_scrutinee; run_step; try reflexivity).
Qed.

(** X8: a validation step either returns or raises before its first event.
    When it returns it has logged, as an epoch-level metric under
    [val/metrics/mel], the L1 loss between the mel features
    ([mel_transforms.loss]) of the masked audio and of the masked generator
    output, each squeezed of its channel dimension, in this order; and then
    it has handed to [report_val_metrics] the generator output times the
    mask, the audio times the mask, and the lengths of the batch, the two
    tensors being of one shape.  The generator was run on the input mel
    features of the squeezed audio and its output had the shape of the
    audio.  When it raises, it raises an [IndexError], an [AssertionError]
    or a [RuntimeError], and nothing has been logged or reported. *)
Theorem validation_step_outcomes (b : batch F) :
  (exists mask sq y y_g_hat y_sq y_g_hat_sq loss_mel,
      index_colon_none_colon (sequence_mask self (lengths b)) = inr mask
      /\ squeeze1 (audio b) = inr sq
      /\ shape (generator self (mel_transforms_input self sq)) = shape (audio b)
      /\ tmap2 fmul (audio b) (to_float32 mask) = inr y
      /\ tmap2 fmul (generator self (mel_transforms_input self sq)) (to_float32 mask)
         = inr y_g_hat
      /\ squeeze1 y = inr y_sq
      /\ squeeze1 y_g_hat = inr y_g_hat_sq
      /\ l1_loss (mel_transforms_loss self y_sq) (mel_transforms_loss self y_g_hat_sq)
         = inr loss_mel
      /\ validation_step self b
         = ([Log "val/metrics/mel" (PyTensor loss_mel) epoch_flags;
             ReportValMetrics y_g_hat y (lengths b)],
            inr tt)
      /\ shape y_g_hat = shape y)
  \/ (exists e,
         validation_step self b = ([], inl e)
         /\ (e = IndexError \/ e = AssertionError \/ e = RuntimeError)).
Proof.
  rewrite validation_step_eq. cbv zeta.
  destruct (index_colon_none_colon _) as [e | m] eqn:Em.
  { right. exists e. name_error. auto. }
  destruct (squeeze1 (audio b)) as [e | sq] eqn:Esq.
  { right. exists e. name_error. auto. }
  destruct (shape_eq_dec _ _) as [Hs | Hs]; [| right; eauto].
  destruct (tmap2 fmul (audio b) _) as [e | y] eqn:Ey.
  { right. exists e. name_error. auto. }
  destruct (tmap2 fmul (generator self _) _) as [e | yg] eqn:Eyg.
  { right. exists e. name_error. auto. }
  destruct (squeeze1 y) as [e | ysq] eqn:E1.
  { right. exists e. name_error. auto. }
  destruct (squeeze1 yg) as [e | ygsq] eqn:E2.
  { right. exists e. name_error. auto. }
  destruct (l1_loss _ _) as [e | lm] eqn:El.
  { right. exists e. name_error. auto. }
  left. exists m, sq, y, yg, ysq, ygsq, lm.
  repeat (split; [first [reflexivity | assumption] |]).
  apply tmap2_shape in Ey. apply tmap2_shape in Eyg. rewrite Hs in Eyg. congruence.
Qed.

(** X9: validation measures what training monitors.  On a batch on which
    a training step completes, the validation step completes too; the value
    it logs under [val/metrics/mel] is the value the training step logged
    under [train/generator/mel], and the tensors it reports are the masked
    fake and real audio the training step worked on before cropping. *)
Theorem validation_agrees_with_training (b : batch F) (u : Z) :
  snd (training_step self b u) = inr tt ->
  exists loss_mel audio1 fake1 mask,
    fst (masked_forward self b) = [ZeroGrad Gen]
    /\ snd (masked_forward self b) = inr (audio1, fake1, mask)
    /\ In (Log "train/generator/mel" (PyTensor loss_mel) (step_flags true))
          (fst (training_step self b u))
    /\ validation_step self b
       = ([Log "val/metrics/mel" (PyTensor loss_mel) epoch_flags;
           ReportValMetrics fake1 audio1 (lengths b)],
          inr tt).
Proof.
  intros Hok.
  destruct (training_step_complete self b u Hok)
    as (a1 & f1 & k & ls & lm & a2 & f2 & k2 & Hmf & Hml & _ & _ & Htr).
  exists lm, a1, f1, k. rewrite Hmf. split; [reflexivity |]. split; [reflexivity |].
  split.
  { rewrite Htr. cbn [app]. right. right. right. left. reflexivity. }
  rewrite validation_step_eq.
  apply masked_forward_inr in Hmf as (_ & m & sq & Hm & Hk & Hsq & Hs & Ha & Hf).
  apply monitored_losses_inr in Hml as (a & f & lm' & Ha1 & Hf1 & _ & Hl & Htr2).
  injection Htr2 as <-. subst k.
  rewrite Hm, Hsq. cbv zeta.
  destruct (shape_eq_dec _ _) as [_ | Hne]; [| contradiction].
  rewrite Ha, Hf, Ha1, Hf1, Hl. reflexivity.
Qed.

End Validation.

(** * The loss utilities *)

Section Utilities.
Context {F : Type} `{Scalar F}.

Lemma py_sum_total (terms : list F) : py_sum terms = total_of terms.
Proof.
  destruct terms as [| x l]; [reflexivity |].
  unfold py_sum. rewrite fold_py_int by discriminate. reflexivity.
Qed.

Lemma rbind_assoc {A B C} (r : result A) (f : A -> result B) (g : B -> result C) :
  rbind (rbind r f) g = rbind r (fun a => rbind (f a) g).
Proof. destruct r; reflexivity. Qed.

Lemma l1_all_app (p q : list (tensor F * tensor F)) :
  l1_all (p ++ q)
  = rbind (l1_all p) (fun ls => rbind (l1_all q) (fun ls' => inr (ls ++ ls'))).
Proof.
  induction p as [| [rl gl] p IH]; cbn [app l1_all rbind].
  - destruct (l1_all q); reflexivity.
  - destruct (l1_loss rl gl) as [e | l]; [reflexivity |]. cbn [rbind].
    rewrite IH. destruct (l1_all p) as [e | ls]; [reflexivity |]. cbn [rbind].
    destruct (l1_all q); reflexivity.
Qed.

Lemma fm_inner_flat (pairs : list (tensor F * tensor F)) (losses : list F) :
  fm_inner pairs losses = rbind (l1_all pairs) (fun ls => inr (losses ++ ls)).
Proof.
  revert losses. induction pairs as [| [rl gl] pairs IH]; intros losses; cbn [fm_inner l1_all].
  - cbn. rewrite app_nil_r. reflexivity.
  - destruct (l1_loss rl gl) as [e | l]; [reflexivity |]. cbn [rbind].
    rewrite IH. destruct (l1_all pairs) as [e | ls]; [reflexivity |]. cbn [rbind].
    rewrite <- app_assoc. reflexivity.
Qed.

Lemma fm_outer_flat (pairs : list (list (tensor F) * list (tensor F))) (losses : list F) :
  fm_outer pairs losses
  = rbind (l1_all (flat_map (fun p => zip (fst p) (snd p)) pairs))
          (fun ls => inr (losses ++ ls)).
Proof.
  revert losses. induction pairs as [| [dr dg] pairs IH]; intros losses;
    cbn [fm_outer flat_map fst snd].
  - cbn. rewrite app_nil_r. reflexivity.
  - rewrite fm_inner_flat, l1_all_app.
    destruct (l1_all (zip dr dg)) as [e | ls]; [reflexivity |]. cbn [rbind].
    rewrite IH. destruct (l1_all _) as [e | ls']; [reflexivity |]. cbn [rbind].
    rewrite app_assoc. reflexivity.
Qed.

(** The two nested loops of [feature_matching_loss] amount to one pass over
    the compared pairs. *)
Lemma feature_matching_loss_flat (reals gens : list (list (tensor F))) :
  feature_matching_loss reals gens
  = rbind (l1_all (compared_maps reals gens)) (fun ls => inr (total_of ls)).
Proof.
  unfold feature_matching_loss, compared_maps. rewrite fm_outer_flat.
  destruct (l1_all _) as [e | ls]; [reflexivity |]. cbn [rbind app].
  rewrite py_sum_total. reflexivity.
Qed.

Lemma l1_all_inr (pairs : list (tensor F * tensor F)) (ls : list F) :
  l1_all pairs = inr ls <-> Forall2 (fun p l => l1_loss (fst p) (snd p) = inr l) pairs ls.
Proof.
  revert ls. induction pairs as [| [rl gl] pairs IH]; intros ls; cbn [l1_all].
  - split.
    + intros E. injection E as <-. constructor.
    + intros Hf. inversion Hf. reflexivity.
  - split.
    + destruct (l1_loss rl gl) as [e | l] eqn:El; [discriminate |]. cbn [rbind].
      destruct (l1_all pairs) as [e | ls'] eqn:Ea; [discriminate |]. cbn [rbind].
      intros E. injection E as <-. constructor; [exact El | apply IH; reflexivity].
    + intros Hf. inversion Hf as [| p l ps ls' Hl Hrest]; subst. cbn [fst snd] in Hl.
      rewrite Hl. cbn [rbind]. apply IH in Hrest. rewrite Hrest. reflexivity.
Qed.

Lemma l1_loss_unbroadcastable (x y : tensor F) :
  broadcast_shapes (shape x) (shape y) = None <-> l1_loss x y = inl RuntimeError.
Proof.
  unfold l1_loss, tmap2. destruct (broadcast_shapes (shape x) (shape y)); cbn [rbind].
  - split; discriminate.
  - split; reflexivity.
Qed.

Lemma l1_all_inl (pairs : list (tensor F * tensor F)) (e : exn) :
  l1_all pairs = inl e ->
  e = RuntimeError
  /\ Exists (fun p => broadcast_shapes (shape (fst p)) (shape (snd p)) = None) pairs.
Proof.
  induction pairs as [| [rl gl] pairs IH]; cbn [l1_all]; [discriminate |].
  destruct (l1_loss rl gl) as [e' | l] eqn:El; cbn [rbind].
  - apply l1_loss_error in El as [-> Hb].
    intros E. injection E as <-. split; [reflexivity | left; exact Hb].
  - destruct (l1_all pairs) as [e' | ls]; cbn [rbind]; [| discriminate].
    intros E. injection E as <-. destruct (IH eq_refl) as [-> Hex].
    split; [reflexivity | right; exact Hex].
Qed.

Lemma l1_all_exists (pairs : list (tensor F * tensor F)) :
  Exists (fun p => broadcast_shapes (shape (fst p)) (shape (snd p)) = None) pairs ->
  l1_all pairs = inl RuntimeError.
Proof.
  induction 1 as [[rl gl] pairs Hb | [rl gl] pairs _ IH]; cbn [l1_all].
  - cbn [fst snd] in Hb. apply l1_loss_unbroadcastable in Hb. rewrite Hb. reflexivity.
  - destruct (l1_loss rl gl) as [e | l] eqn:El; cbn [rbind].
    + apply l1_loss_error in El as [-> _]. reflexivity.
    + rewrite IH. reflexivity.
Qed.

(** X10: [feature_matching_loss] raises exactly when some compared pair of
    feature maps has shapes that do not broadcast against each other, and
    what it raises then is a [RuntimeError]; otherwise it returns the sum,
    accumulated in order from the [int] 0, of the L1 losses of all compared
    pairs.  The compared pairs are the feature maps at equal positions of
    the discriminators at equal positions. *)
Theorem feature_matching_loss_outcomes (reals gens : list (list (tensor F))) :
  (forall e, feature_matching_loss reals gens = inl e ->
             e = RuntimeError
             /\ Exists (fun p => broadcast_shapes (shape (fst p)) (shape (snd p)) = None)
                       (compared_maps reals gens))
  /\ (Exists (fun p => broadcast_shapes (shape (fst p)) (shape (snd p)) = None)
             (compared_maps reals gens) ->
      feature_matching_loss reals gens = inl RuntimeError)
  /\ (forall v, feature_matching_loss reals gens = inr v ->
                exists ls,
                  Forall2 (fun p l => l1_loss (fst p) (snd p) = inr l)
                          (compared_maps reals gens) ls
                  /\ v = fold_left py_add_tensor ls (PyInt 0)).
Proof.
  rewrite feature_matching_loss_flat. split; [| split].
  - intros e. destruct (l1_all _) as [e' | ls] eqn:E; cbn [rbind]; [| discriminate].
    intros E'. injection E' as <-. exact (l1_all_inl _ E).
  - intros Hex. rewrite (l1_all_exists Hex). reflexivity.
  - intros v. destruct (l1_all _) as [e' | ls] eqn:E; cbn [rbind]; [discriminate |].
    intros E'. injection E' as <-. exists ls. split; [apply l1_all_inr; exact E |].
    rewrite <- py_sum_total. reflexivity.
Qed.

(** X11: the total of each loss utility is the [int] 0 it was initialised
    with exactly when there was nothing to add, and a tensor otherwise:
    [generator_loss] of no output, [discriminator_loss] when either sequence
    is empty, [feature_matching_loss] when no pair of feature maps is
    compared. *)
Theorem totals_start_from_int_zero
  (outputs reals gens : list (tensor F)) (freals fgens : list (list (tensor F))) :
  fst (generator_loss outputs)
  = match outputs with
    | [] => PyInt 0
    | _ :: _ => PyTensor (fold_left fadd (map mean_sq_one_minus outputs) (of_int 0))
    end
  /\ fst (fst (discriminator_loss reals gens))
     = match zip reals gens with
       | [] => PyInt 0
       | _ :: _ => PyTensor (fold_left fadd (map pair_loss (zip reals gens)) (of_int 0))
       end
  /\ (zip reals gens = [] <-> reals = [] \/ gens = [])
  /\ (forall v, feature_matching_loss freals fgens = inr v ->
                match compared_maps freals fgens with
                | [] => v = PyInt 0
                | _ :: _ => exists x, v = PyTensor x
                end).
Proof.
  split; [| split; [| split]].
  - rewrite generator_loss_eq, py_sum_total. cbn [fst]. destruct outputs; reflexivity.
  - rewrite discriminator_loss_eq, py_sum_total. cbn [fst].
    destruct (zip reals gens); reflexivity.
  - destruct reals as [| r reals], gens as [| g gens]; cbn [zip]; split; auto;
      try discriminate. intros [E | E]; discriminate E.
  - intros v. rewrite feature_matching_loss_flat.
    destruct (l1_all _) as [e | ls] eqn:E; cbn [rbind]; [discriminate |].
    intros E'. injection E' as <-. apply l1_all_inr in E.
    destruct E as [| p l ps ls' _ _]; cbn [total_of]; [reflexivity | eauto].
Qed.

(** X12: the totals can be recomputed from the diagnostics the utilities
    return.  [generator_loss] returns one loss per output, in order, and
    their sum as the total; [discriminator_loss] returns as many real losses
    as generated losses, one of each per pair of outputs up to the shorter
    sequence, and its total is the sum of the pairwise sums [r + g]. *)
Theorem totals_from_diagnostics (outputs reals gens : list (tensor F)) :
  snd (generator_loss outputs) = map mean_sq_one_minus outputs
  /\ fst (generator_loss outputs)
     = fold_left py_add_tensor (snd (generator_loss outputs)) (PyInt 0)
  /\ List.length (snd (fst (discriminator_loss reals gens)))
     = Nat.min (List.length reals) (List.length gens)
  /\ List.length (snd (discriminator_loss reals gens))
     = Nat.min (List.length reals) (List.length gens)
  /\ fst (fst (discriminator_loss reals gens))
     = fold_left py_add_tensor
         (map (fun p => fadd (fst p) (snd p))
              (combine (snd (fst (discriminator_loss reals gens)))
                       (snd (discriminator_loss reals gens))))
         (PyInt 0).
Proof.
  rewrite generator_loss_eq, discriminator_loss_eq. cbn [fst snd].
  assert (Hlen : List.length (zip reals gens)
                 = Nat.min (List.length reals) (List.length gens)).
  { revert gens. induction reals as [| r reals IH]; intros [| g gens]; cbn; auto. }
  repeat split.
  - rewrite length_map. exact Hlen.
  - rewrite length_map. exact Hlen.
  - unfold py_sum. f_equal. clear Hlen.
    induction (zip reals gens) as [| p ps IH]; [reflexivity |].
    cbn [map combine fst snd]. f_equal. exact IH.
Qed.

End Utilities.

(** * Binary32: signs and symmetry *)

Section Binary32Signs.
Import Binary32.

(** Rounding keeps the sign it is given. *)
Lemma binary_round_aux_sign (sx : bool) (m e : Z) (l : location) :
  match binary_round_aux prec emax sx m e l with
  | S754_nan => True
  | S754_zero s | S754_infinity s | S754_finite s _ _ => s = sx
  end.
Proof.
  unfold binary_round_aux.
  destruct (shr_fexp prec emax m e l) as [mrs' e'].
  destruct (shr_fexp prec emax _ e' loc_Exact) as [mrs'' e''].
  destruct (shr_m mrs''); [reflexivity | | exact I].
  destruct (Z.leb e'' (emax - prec)); reflexivity.
Qed.

Lemma binary_round_aux_nonneg (m e : Z) (l : location) :
  nonneg (binary_round_aux prec emax false m e l) = true.
Proof.
  pose proof (binary_round_aux_sign false m e l) as Hs.
  destruct (binary_round_aux prec emax false m e l) as [s | s | | s m' e'];
    cbn [nonneg]; try rewrite Hs; reflexivity.
Qed.

Lemma binary_round_nonneg (m : positive) (e : Z) :
  nonneg (binary_round prec emax false m e) = true.
Proof.
  unfold binary_round. destruct (shl_align m e _) as [mz ez].
  apply binary_round_aux_nonneg.
Qed.

Lemma square_nonneg (x : float32) : nonneg (mul x x) = true.
Proof.
  destruct x as [s | s | | s m e]; try (destruct s; reflexivity); try reflexivity.
  unfold mul, SFmul.
  replace (xorb s s) with false by (destruct s; reflexivity).
  apply binary_round_aux_nonneg.
Qed.

Lemma abs_nonneg (x : float32) : nonneg (SFabs x) = true.
Proof. destruct x; reflexivity. Qed.

Lemma add_nonneg (x y : float32) :
  nonneg x = true -> nonneg y = true -> nonneg (add x y) = true.
Proof.
  destruct x as [sx | sx | | sx mx ex], y as [sy | sy | | sy my ey];
    cbn [nonneg]; intros Hx Hy;
    try (apply negb_true_iff in Hx; subst sx);
    try (apply negb_true_iff in Hy; subst sy);
    try reflexivity.
  unfold add, SFadd. cbn [cond_Zopp Z.add]. apply binary_round_nonneg.
Qed.

Lemma div_nonneg (x y : float32) :
  nonneg x = true -> nonneg y = true -> nonneg (div x y) = true.
Proof.
  destruct x as [sx | sx | | sx mx ex], y as [sy | sy | | sy my ey];
    cbn [nonneg]; intros Hx Hy;
    try (apply negb_true_iff in Hx; subst sx);
    try (apply negb_true_iff in Hy; subst sy);
    try reflexivity.
  unfold div, SFdiv. destruct (SFdiv_core_binary _ _ _ _ _ _) as [[mz ez] lz].
  apply binary_round_aux_nonneg.
Qed.

Lemma of_int_nonneg (n : nat) : nonneg (of_int (Z.of_nat n)) = true.
Proof.
  destruct n as [| n]; [reflexivity |].
  rewrite Nat2Z.inj_succ, <- Z.add_1_r.
  destruct (Z.of_nat n + 1)%Z as [| p | p] eqn:E; try lia.
  destruct (of_int_positive p) as [(m & e & ->) | ->]; reflexivity.
Qed.

Lemma fold_add_nonneg (l : list float32) (a : float32) :
  nonneg a = true -> Forall (fun x => nonneg x = true) l ->
  nonneg (fold_left add l a) = true.
Proof.
  intros Ha Hl. revert a Ha. induction Hl as [| x l Hx _ IH]; intros a Ha; [exact Ha |].
  cbn [fold_left]. apply IH. apply add_nonneg; assumption.
Qed.

(** The mean of numbers that are not negative is not negative. *)
Lemma tmean_nonneg (t : tensor float32) :
  Forall (fun x => nonneg x = true) (data t) -> nonneg (tmean t) = true.
Proof.
  intros Hd. unfold tmean, tsum. cbn [fadd fdiv scalar32].
  apply div_nonneg; [| apply of_int_nonneg].
  apply fold_add_nonneg; [reflexivity | exact Hd].
Qed.

Lemma mean_sq_one_minus_nonneg (d : tensor float32) : nonneg (mean_sq_one_minus d) = true.
Proof.
  apply tmean_nonneg. cbn [tmap data]. apply Forall_map, Forall_forall.
  intros x _. apply square_nonneg.
Qed.

Lemma mean_sq_nonneg (d : tensor float32) : nonneg (mean_sq d) = true.
Proof.
  apply tmean_nonneg. cbn [tmap data]. apply Forall_map, Forall_forall.
  intros x _. apply square_nonneg.
Qed.

Lemma l1_loss_nonneg (x y : tensor float32) (l : float32) :
  l1_loss x y = inr l -> nonneg l = true.
Proof.
  unfold l1_loss, tmap2. destruct (broadcast_shapes _ _) as [s |]; [| discriminate].
  cbn [rbind]. intros E. injection E as <-. apply tmean_nonneg. cbn [data].
  apply Forall_forall. intros v Hv. apply in_flat_map in Hv as (k & _ & Hk).
  destruct (nth_error (data x) _); [| destruct Hk].
  destruct (nth_error (data y) _); [| destruct Hk].
  destruct Hk as [<- | []]. apply abs_nonneg.
Qed.

(** Adding to the [int] 0 a number that is not negative changes nothing. *)
Lemma add_zero_nonneg (x : float32) : nonneg x = true -> add zero x = x.
Proof.
  destruct x as [s | s | | s m e]; cbn [nonneg]; intros Hx;
    try (apply negb_true_iff in Hx; subst s); reflexivity.
Qed.

End Binary32Signs.

Section Binary32Utilities.
Import Binary32.

Lemma total_of_nonneg (terms : list float32) :
  Forall (fun x => nonneg x = true) terms -> nonneg_num (total_of terms) = true.
Proof.
  intros Hf. destruct terms as [| x l]; [reflexivity |].
  cbn [total_of nonneg_num fadd scalar32]. apply fold_add_nonneg; [reflexivity | exact Hf].
Qed.

(** X13: in binary32 no loss utility returns a negative number.  Every
    per-output loss of [generator_loss], every real and generated loss of
    [discriminator_loss] and the totals of all three utilities have a clear
    sign bit or are NaN, whatever the scores and feature maps (infinite and
    NaN entries included). *)
Theorem losses_are_not_negative
  (outputs reals gens : list (tensor float32)) (freals fgens : list (list (tensor float32))) :
  Forall (fun x => nonneg x = true) (snd (generator_loss outputs))
  /\ nonneg_num (fst (generator_loss outputs)) = true
  /\ Forall (fun x => nonneg x = true) (snd (fst (discriminator_loss reals gens)))
  /\ Forall (fun x => nonneg x = true) (snd (discriminator_loss reals gens))
  /\ nonneg_num (fst (fst (discriminator_loss reals gens))) = true
  /\ (forall v, feature_matching_loss freals fgens = inr v -> nonneg_num v = true).
Proof.
  rewrite generator_loss_eq, discriminator_loss_eq. cbn [fst snd].
  assert (Hg : Forall (fun x => nonneg x = true) (map mean_sq_one_minus outputs))
    by (apply Forall_map, Forall_forall; intros; apply mean_sq_one_minus_nonneg).
  split; [exact Hg |].
  split; [rewrite py_sum_total; apply total_of_nonneg, Hg |].
  split; [apply Forall_map, Forall_forall; intros; apply mean_sq_one_minus_nonneg |].
  split; [apply Forall_map, Forall_forall; intros; apply mean_sq_nonneg |].
  split.
  - rewrite py_sum_total. apply total_of_nonneg, Forall_map, Forall_forall.
    intros p _. unfold pair_loss. cbn [fadd scalar32].
    apply add_nonneg; [apply mean_sq_one_minus_nonneg | apply mean_sq_nonneg].
  - intros v. rewrite feature_matching_loss_flat.
    destruct (l1_all _) as [e | ls] eqn:E; cbn [rbind]; [discriminate |].
    intros E'. injection E' as <-. apply total_of_nonneg.
    apply l1_all_inr in E. induction E as [| p l ps ls Hl _ IH]; constructor; [| exact IH].
    exact (l1_loss_nonneg _ _ Hl).
Qed.

(** X14: in binary32 [generator_loss] of a single output returns as total
    exactly the one loss of its list: starting the accumulation from the
    [int] 0 does not perturb it. *)
Theorem generator_loss_of_one_output (d : tensor float32) :
  generator_loss [d] = (PyTensor (mean_sq_one_minus d), [mean_sq_one_minus d]).
Proof.
  unfold generator_loss. cbn [fold_left app]. unfold py_add_tensor.
  cbn [py_value fadd scalar32]. change (of_int 0 : float32) with zero.
  rewrite add_zero_nonneg by apply mean_sq_one_minus_nonneg. reflexivity.
Qed.

End Binary32Utilities.

Section Swapping.

Lemma broadcast_rev_comm (s1 s2 : list nat) : broadcast_rev s1 s2 = broadcast_rev s2 s1.
Proof.
  revert s2. induction s1 as [| a s1 IH]; intros [| b s2]; try reflexivity.
  cbn [broadcast_rev]. rewrite IH. destruct (broadcast_rev s2 s1) as [s |]; [| reflexivity].
  destruct (Nat.eqb_spec a b) as [-> | Hab].
  - rewrite Nat.eqb_refl. reflexivity.
  - destruct (Nat.eqb_spec b a) as [-> | _]; [contradiction |].
    destruct (Nat.eqb_spec a 1) as [-> | Ha], (Nat.eqb_spec b 1) as [-> | Hb];
      reflexivity.
Qed.

Lemma broadcast_shapes_comm (s1 s2 : list nat) :
  broadcast_shapes s1 s2 = broadcast_shapes s2 s1.
Proof. unfold broadcast_shapes. rewrite broadcast_rev_comm. reflexivity. Qed.

Lemma tmap2_swap {A B C} (f : A -> B -> C) (g : B -> A -> C) (x : tensor A) (y : tensor B) :
  (forall a b, f a b = g b a) -> tmap2 f x y = tmap2 g y x.
Proof.
  intros Hfg. unfold tmap2. rewrite (broadcast_shapes_comm (shape y) (shape x)).
  destruct (broadcast_shapes (shape x) (shape y)) as [s |]; [| reflexivity].
  f_equal. f_equal. rewrite !flat_map_concat_map. f_equal. apply map_ext. intros k.
  destruct (nth_error (data x) _), (nth_error (data y) _); try reflexivity.
  rewrite Hfg. reflexivity.
Qed.

Lemma zip_swap {A B} (xs : list A) (ys : list B) :
  zip ys xs = map (fun p => (snd p, fst p)) (zip xs ys).
Proof.
  revert ys. induction xs as [| x xs IH]; intros [| y ys]; try reflexivity.
  cbn [zip map fst snd]. rewrite IH. reflexivity.
Qed.

End Swapping.

Section Binary32Symmetry.
Import Binary32.

Lemma binary_round_opp (m : positive) (e : Z) :
  binary_round prec emax true m e = SFopp (binary_round prec emax false m e).
Proof.
  unfold binary_round. destruct (shl_align m e _) as [mz ez].
  unfold binary_round_aux.
  destruct (shr_fexp prec emax (Zpos mz) ez loc_Exact) as [mrs' e'].
  destruct (shr_fexp prec emax _ e' loc_Exact) as [mrs'' e''].
  destruct (shr_m mrs''); try reflexivity.
  destruct (Z.leb e'' (emax - prec)); reflexivity.
Qed.

Lemma binary_normalize_opp (m e : Z) :
  (exists s s', binary_normalize prec emax m e false = S754_zero s
                /\ binary_normalize prec emax (- m) e false = S754_zero s')
  \/ binary_normalize prec emax (- m) e false = SFopp (binary_normalize prec emax m e false).
Proof.
  destruct m as [| p | p]; cbn [Z.opp binary_normalize].
  - left. eauto.
  - right. apply binary_round_opp.
  - right. rewrite binary_round_opp.
    destruct (binary_round prec emax false p e) as [s | s | | s m' e']; cbn [SFopp];
      rewrite ?negb_involutive; reflexivity.
Qed.

(** Swapping the operands of a subtraction negates the result, except that
    a zero result stays a zero. *)
Lemma sub_swap (x y : float32) :
  (exists s s', sub x y = S754_zero s /\ sub y x = S754_zero s')
  \/ sub y x = SFopp (sub x y).
Proof.
  unfold sub.
  destruct x as [sx | sx | | sx mx ex], y as [sy | sy | | sy my ey]; cbn [SFsub SFopp];
    try (right; reflexivity);
    try (right; destruct sx, sy; reflexivity);
    try (left; destruct sx, sy; eauto; fail).
  rewrite (Z.min_comm ey ex).
  replace (cond_Zopp sy (Zpos (fst (shl_align my ey (Z.min ex ey))))
           - cond_Zopp sx (Zpos (fst (shl_align mx ex (Z.min ex ey)))))%Z
    with (- (cond_Zopp sx (Zpos (fst (shl_align mx ex (Z.min ex ey))))
             - cond_Zopp sy (Zpos (fst (shl_align my ey (Z.min ex ey))))))%Z by lia.
  apply binary_normalize_opp.
Qed.

Lemma abs_opp (x : float32) : SFabs (SFopp x) = SFabs x.
Proof. destruct x; reflexivity. Qed.

Lemma square_opp (x : float32) : mul (SFopp x) (SFopp x) = mul x x.
Proof.
  destruct x as [s | s | | s m e]; cbn [SFopp mul SFmul]; try (destruct s; reflexivity).
  reflexivity.
Qed.

Lemma abs_sub_swap (x y : float32) : SFabs (sub x y) = SFabs (sub y x).
Proof.
  destruct (sub_swap x y) as [(s & s' & -> & ->) | ->]; [reflexivity |].
  rewrite abs_opp. reflexivity.
Qed.

Lemma square_sub_swap (x y : float32) :
  mul (sub x y) (sub x y) = mul (sub y x) (sub y x).
Proof.
  destruct (sub_swap x y) as [(s & s' & -> & ->) | ->].
  - destruct s, s'; reflexivity.
  - rewrite square_opp. reflexivity.
Qed.

Lemma l1_loss_swap (x y : tensor float32) : l1_loss x y = l1_loss y x.
Proof.
  unfold l1_loss. f_equal. apply tmap2_swap. intros a b. apply abs_sub_swap.
Qed.

Lemma l1_all_swap (pairs : list (tensor float32 * tensor float32)) :
  l1_all (map (fun p => (snd p, fst p)) pairs) = l1_all pairs.
Proof.
  induction pairs as [| [rl gl] pairs IH]; [reflexivity |].
  cbn [map l1_all fst snd]. rewrite IH, (l1_loss_swap gl rl). reflexivity.
Qed.

(** X15: in binary32 [feature_matching_loss] is symmetric: exchanging the
    real and the generated feature maps gives the same result, be it a value
    or an exception. *)
Theorem feature_matching_loss_symmetric (reals gens : list (list (tensor float32))) :
  feature_matching_loss gens reals = feature_matching_loss reals gens.
Proof.
  rewrite !feature_matching_loss_flat. f_equal.
  assert (Hc : compared_maps gens reals
               = map (fun p => (snd p, fst p)) (compared_maps reals gens)).
  { unfold compared_maps. rewrite (zip_swap reals gens).
    induction (zip reals gens) as [| [dr dg] ps IH]; [reflexivity |].
    cbn [map flat_map fst snd]. rewrite IH, map_app, (zip_swap dr dg). reflexivity. }
  rewrite Hc. apply l1_all_swap.
Qed.

End Binary32Symmetry.

Section Binary32Composition.
Import Binary32.
Variable self : HiFiGANModel float32.

Lemma adv_losses_of_scores (fake : tensor float32) :
  map (adv_loss fake) (discriminators self) = map mean_sq_one_minus (scores self fake).
Proof. unfold scores. rewrite map_map. reflexivity. Qed.

Lemma disc_loss_as_pair_loss (real fake : tensor float32) (item : string * discriminator float32) :
  disc_loss real fake item = pair_loss (fst (snd item real), fst (snd item fake)).
Proof.
  unfold disc_loss, pair_loss, mean_sq_one_minus, mean_sq. cbn [fst snd]. f_equal.
  unfold tmean, tsum, tmap. cbn [data].
  rewrite (map_ext (fun s : float32 => fmul (fsub s (of_int 1)) (fsub s (of_int 1)))
                   (fun x : float32 => let y := fsub (of_int 1) x in fmul y y)).
  - rewrite !length_map. reflexivity.
  - intros s. cbn [fmul fsub scalar32]. apply square_sub_swap.
Qed.

Lemma disc_losses_of_scores (real fake : tensor float32) :
  map (disc_loss real fake) (discriminators self)
  = map pair_loss (zip (scores self real) (scores self fake)).
Proof.
  unfold scores. induction (discriminators self) as [| item ds IH]; [reflexivity |].
  cbn [map zip]. rewrite IH, disc_loss_as_pair_loss. reflexivity.
Qed.

(** X16: the training step optimises what the static utilities compute.  In
    binary32, a completed step backpropagates for the generator 2.5 times
    the STFT loss plus the total of [generator_loss] on the fake scores
    divided by the number of discriminators, and for the discriminators the
    total of [discriminator_loss] on the real and the fake scores divided by
    that number; the scores are those of the ensemble, in order, on the
    audio as the crop returned it. *)
Theorem training_step_uses_utilities (b : batch float32) (u : Z) :
  snd (training_step self b u) = inr tt ->
  exists audio1 fake1 mask loss_stft audio2 fake2 mask2,
    snd (masked_forward self b) = inr (audio1, fake1, mask)
    /\ snd (monitored_losses self audio1 fake1) = inr loss_stft
    /\ snd (crop self u audio1 fake1 mask) = inr (audio2, fake2, mask2)
    /\ backwards (fst (training_step self b u))
       = [add (mul loss_stft (of_dyadic 5 (-1)))
              (div (py_value (fst (generator_loss (scores self fake2))))
                   (of_int (Z.of_nat (List.length (discriminators self)))));
          div (py_value (fst (fst (discriminator_loss (scores self audio2) (scores self fake2)))))
              (of_int (Z.of_nat (List.length (discriminators self))))].
Proof.
  intros Hok.
  destruct (training_step_complete self b u Hok)
    as (a1 & f1 & k & ls & lm & a2 & f2 & k2 & Hmf & Hml & Hcr & Hne & Htr).
  exists a1, f1, k, ls, a2, f2, k2.
  rewrite Hmf, Hml, Hcr. repeat split.
  rewrite Htr, !backwards_app, generator_events_backwards, discriminator_events_backwards.
  cbn [backwards flat_map app].
  rewrite generator_loss_eq, discriminator_loss_eq. cbn [fst].
  unfold py_sum. rewrite <- adv_losses_of_scores, <- disc_losses_of_scores.
  rewrite !fold_py_int by (destruct (discriminators self); [congruence | discriminate]).
  reflexivity.
Qed.

End Binary32Composition.

(** * Masking *)

Section Masking.
Import Binary32.

(** Multiplying a binary32 number by 1.0 returns it. *)
Lemma mul_one (x : float32) :
  valid_binary prec emax x = true -> mul x (of_int 1) = x.
Proof.
  change (of_int 1 : float32) with (S754_finite false 8388608 (-23)).
  destruct x as [s | s | | s m e]; try (destruct s; reflexivity); [reflexivity |].
  cbn [valid_binary]. unfold bounded, canonical_mantissa. intros Hv.
  apply andb_true_iff in Hv as [Hc Hb]. apply Z.eqb_eq in Hc. apply Z.leb_le in Hb.
  unfold mul, SFmul. rewrite xorb_false_r, (Pos.mul_comm m 8388608).
  cbn [Pos.mul]. unfold binary_round_aux.
  assert (Hd : Zdigits2 (Zpos m~0~0~0~0~0~0~0~0~0~0~0~0~0~0~0~0~0~0~0~0~0~0~0)
               = (Zpos (digits2_pos m) + 23)%Z).
  { cbn [Zdigits2 digits2_pos]. lia. }
  assert (H1 : shr_fexp prec emax (Zpos m~0~0~0~0~0~0~0~0~0~0~0~0~0~0~0~0~0~0~0~0~0~0~0)
                        (e + -23) loc_Exact
               = (Build_shr_record (Zpos m) false false, e)).
  { unfold shr_fexp. rewrite Hd.
    replace (fexp prec emax (Zpos (digits2_pos m) + 23 + (e + -23)) - (e + -23))%Z
      with 23%Z by (replace (Zpos (digits2_pos m) + 23 + (e + -23))%Z
                      with (Zpos (digits2_pos m) + e)%Z by lia; lia).
    unfold shr. cbn [shr_record_of_loc iter_pos shr_1 orb]. f_equal. lia. }
  rewrite H1. cbn [shr_m loc_of_shr_record round_nearest_even].
  assert (H2 : shr_fexp prec emax (Zpos m) e loc_Exact
               = (Build_shr_record (Zpos m) false false, e)).
  { unfold shr_fexp. cbn [Zdigits2]. rewrite Hc, Z.sub_diag. reflexivity. }
  rewrite H2. cbn [shr_m]. apply Z.leb_le in Hb. rewrite Hb. reflexivity.
Qed.

(** Multiplying a finite binary32 number by 0.0 gives a zero. *)
Lemma mul_zero (x : float32) :
  is_finite x = true -> exists s, mul x (of_int 0) = S754_zero s.
Proof.
  change (of_int 0 : float32) with (S754_zero false).
  destruct x as [s | s | | s m e]; try discriminate; intros _; cbn [mul SFmul]; eauto.
Qed.

(** X17: what the mask does to the audio.  For well-formed audio and mask
    of one shape holding valid binary32 numbers, every sample of the masked
    audio is the sample itself where the mask is true, and a zero where the
    mask is false and the sample is finite; the same mask is applied to the
    generator's output. *)
Theorem masking_zeroes_padding (self : HiFiGANModel float32) (b : batch float32)
  tr audio1 fake1 mask (m : tensor bool) :
  masked_forward self b = (tr, inr (audio1, fake1, mask)) ->
  index_colon_none_colon (sequence_mask self (lengths b)) = inr m ->
  shape (audio b) = shape m ->
  wf (audio b) -> wf m ->
  Forall (fun a => valid_binary prec emax a = true) (data (audio b)) ->
  mask = to_float32 m
  /\ shape audio1 = shape (audio b)
  /\ Forall2 (fun p r => if snd p : bool then r = fst p
                         else is_finite (fst p) = true -> exists s, r = S754_zero s)
             (combine (data (audio b)) (data m)) (data audio1)
  /\ exists sq, squeeze1 (audio b) = inr sq
                /\ tmap2 fmul (generator self (mel_transforms_input self sq)) mask = inr fake1.
Proof.
  intros Hmf Hm Hs Hwa Hwm Hv.
  apply masked_forward_inr in Hmf as (_ & m' & sq & Hm' & -> & Hsq & Hg & Ha & Hf).
  rewrite Hm in Hm'. injection Hm' as <-.
  split; [reflexivity |].
  assert (Hwk : wf (to_float32 m : tensor float32)).
  { unfold wf, to_float32. cbn [tmap data shape]. rewrite length_map. exact Hwm. }
  rewrite (tmap2_same fmul (x:=audio b) (y:=to_float32 m) Hs Hwa Hwk) in Ha.
  injection Ha as <-. cbn [shape data].
  split; [reflexivity |]. split; [| exists sq; split; assumption].
  unfold to_float32. cbn [tmap data].
  unfold wf in Hwa, Hwm. rewrite <- Hs in Hwm.
  assert (Hlen : List.length (data (audio b)) = List.length (data m)) by congruence.
  clear Hwa Hwm Hf Hg Hsq Hm Hs.
  revert Hlen Hv. generalize (data (audio b)) as xs, (data m) as ms.
  induction xs as [| x xs IH]; intros [| v ms] Hlen Hv; try discriminate; [constructor |].
  cbn [map combine fst snd]. inversion Hv as [| ? ? Hx Hxs]; subst.
  constructor; [| apply IH; [injection Hlen; auto | exact Hxs]].
  cbn [fst snd fmul scalar32]. destruct v.
  - apply mul_one. exact Hx.
  - intros Hfin. apply mul_zero. exact Hfin.
Qed.

End Masking.

(** * Two outputs, and the two sides of the least-squares game *)

Section Binary32Pairs.
Import Binary32.

Lemma add_comm (x y : float32) : add x y = add y x.
Proof.
  unfold add.
  destruct x as [sx | sx | | sx mx ex], y as [sy | sy | | sy my ey]; cbn [SFadd];
    try reflexivity; try (destruct sx, sy; reflexivity).
  rewrite (Z.min_comm ey ex), Z.add_comm. reflexivity.
Qed.

(** X18: in binary32 the order of two outputs does not show in the totals:
    [generator_loss] of two outputs, and [discriminator_loss] of two pairs of
    outputs, return the same total when the two are exchanged.  (From three
    outputs on the rounding of the accumulation can depend on the order.) *)
Theorem two_outputs_commute (a b ra rb ga gb : tensor float32) :
  fst (generator_loss [b; a]) = fst (generator_loss [a; b])
  /\ fst (fst (discriminator_loss [rb; ra] [gb; ga]))
     = fst (fst (discriminator_loss [ra; rb] [ga; gb])).
Proof.
  rewrite !generator_loss_eq, !discriminator_loss_eq. cbn [fst zip map].
  unfold py_sum. cbn [fold_left]. unfold py_add_tensor. cbn [py_value fadd scalar32].
  change (of_int 0 : float32) with zero.
  assert (Hp : forall p : tensor float32 * tensor float32, nonneg (pair_loss p) = true).
  { intros p. unfold pair_loss. cbn [fadd scalar32].
    apply add_nonneg; [apply mean_sq_one_minus_nonneg | apply mean_sq_nonneg]. }
  rewrite !add_zero_nonneg by first [apply mean_sq_one_minus_nonneg | apply Hp].
  split; f_equal; apply add_comm.
Qed.

End Binary32Pairs.

Section TwoSides.
Context {F : Type} `{Scalar F}.

(** X19: the two sides of the least-squares game use one formula.  The
    real losses [discriminator_loss] returns for a sequence of scores are the
    per-output losses [generator_loss] returns for the same scores, as far as
    the generated sequence reaches: both are [mean((1 - score)^2)]. *)
Theorem real_loss_is_adversarial_loss (ds gs : list (tensor F)) :
  snd (fst (discriminator_loss ds gs))
  = firstn (List.length gs) (snd (generator_loss ds)).
Proof.
  rewrite generator_loss_eq, discriminator_loss_eq. cbn [fst snd].
  revert gs. induction ds as [| d ds IH]; intros [| g gs]; try reflexivity.
  cbn [zip map List.length firstn fst]. f_equal. apply IH.
Qed.

End TwoSides.

(** * The further properties at concrete inputs *)

Section MoreWitnesses.
Import Binary32.

Lemma no_grad_scope_is_closed_witness :
  exists pre loss_mel post,
    fst (training_step (Demo.model (Some 2%Z)) Demo.batch2 1%Z)
    = pre ++ [NoGradEnter;
              Log "train/generator/mel" (PyTensor loss_mel) (step_flags true);
              NoGradExit] ++ post
    /\ scopes pre = [] /\ scopes post = [].
Proof.
  apply (proj1 (proj2 (no_grad_scope_is_closed (Demo.model (Some 2%Z)) Demo.batch2 1%Z))).
  vm_compute. reflexivity.
Defined.


Lemma training_step_log_keys_witness :
  log_keys (fst (training_step (Demo.model (Some 2%Z)) Demo.batch2 1%Z))
  = ["train/generator/stft"; "train/generator/mel";
     "train/generator/adv_mpd"; "train/generator/adv_mrd";
     "train/discriminator/mpd"; "train/discriminator/mrd";
     "train/discriminator/all"]%string
  /\ NoDup (log_keys (fst (training_step (Demo.model (Some 2%Z)) Demo.batch2 1%Z))).
Proof.
  destruct (training_step_log_keys (Demo.model (Some 2%Z)) Demo.batch2 1%Z) as [Hk Hn].
  - vm_compute. reflexivity.
  - split; [exact Hk |]. apply Hn. split.
    + repeat constructor; cbn; intuition discriminate.
    + cbn. intuition discriminate.
Defined.

Lemma backpropagated_from_logged_witness :
  exists loss_stft loss_mel advs discs,
    log_values (fst (training_step (Demo.model None) Demo.batch2 0%Z))
    = [PyTensor loss_stft; PyTensor loss_mel]
        ++ map PyTensor advs ++ map PyTensor discs
        ++ [PyTensor (S754_finite false 8421376 (-20))]
    /\ backwards (fst (training_step (Demo.model None) Demo.batch2 0%Z))
       = [add (mul loss_stft (of_dyadic 5 (-1)))
              (div (fold_left add advs zero) (of_int (Z.of_nat (List.length advs))));
          S754_finite false 8421376 (-20)].
Proof.
  destruct (backpropagated_from_logged (Demo.model None) Demo.batch2 0%Z)
    as (ls & lm & advs & discs & Hl & _ & _ & Hb).
  - vm_compute. reflexivity.
  - exists ls, lm, advs, discs.
    assert (Hd : fdiv (fold_left fadd discs (of_int 0)) (of_int (Z.of_nat (List.length discs)))
                 = S754_finite false 8421376 (-20)).
    { assert (Hlast : last (backwards (fst (training_step (Demo.model None) Demo.batch2 0%Z)))
                           zero
                      = S754_finite false 8421376 (-20)) by (vm_compute; reflexivity).
      rewrite Hb in Hlast. exact Hlast. }
    rewrite Hd in Hl, Hb. split; [exact Hl | exact Hb].
Defined.

Lemma uncropped_step_ignores_draw_witness :
  training_step (Demo.model (Some 4%Z)) Demo.batch2 3%Z
  = training_step (Demo.model (Some 4%Z)) Demo.batch2 7%Z.
Proof.
  apply uncropped_step_ignores_draw.
  intros c tr audio1 fake1 mask time Hc Hmf Ht.
  injection Hc as <-.
  assert (Hs : shape audio1 = [2; 1; 4]).
  { assert (E : option_map (fun r => shape (fst (fst r)))
                  (match snd (masked_forward (Demo.model (Some 4%Z)) Demo.batch2) with
                   | inr r => Some r
                   | inl _ => None
                   end) = Some [2; 1; 4]) by (vm_compute; reflexivity).
    rewrite Hmf in E. cbn in E. injection E as E. exact E. }
  unfold shape_at in Ht. rewrite Hs in Ht. cbn in Ht. injection Ht as <-. lia.
Defined.

Lemma validation_agrees_with_training_witness :
  exists loss_mel audio1 fake1,
    In (Log "train/generator/mel" (PyTensor loss_mel) (step_flags true))
       (fst (training_step (Demo.model (Some 2%Z)) Demo.batch2 1%Z))
    /\ validation_step (Demo.model (Some 2%Z)) Demo.batch2
       = ([Log "val/metrics/mel" (PyTensor loss_mel) epoch_flags;
           ReportValMetrics fake1 audio1 (lengths Demo.batch2)],
          inr tt).
Proof.
  destruct (validation_agrees_with_training (Demo.model (Some 2%Z)) Demo.batch2 1%Z)
    as (lm & a1 & f1 & k & _ & _ & Hin & Hv).
  - vm_compute. reflexivity.
  - exists lm, a1, f1. split; assumption.
Defined.

Lemma feature_matching_loss_outcomes_witness :
  let x := mkTensor [2; 3] (map Demo.f32 [1; 2; 3; 4; 5; 6]%Z) in
  let y := mkTensor [2; 2] (map Demo.f32 [1; 2; 3; 4]%Z) in
  feature_matching_loss [[x; x]; [x]] [[x; y]; [x]] = inl RuntimeError.
Proof.
  cbv zeta.
  apply (proj1 (proj2 (feature_matching_loss_outcomes _ _))).
  cbn [compared_maps zip flat_map fst snd app].
  right. left. reflexivity.
Defined.

Lemma totals_start_from_int_zero_witness :
  let x := vector [Demo.f32 1; Demo.f32 3] in
  exists v, feature_matching_loss [[x]; []] [[x]] = inr v /\ exists t, v = PyTensor t.
Proof.
  cbv zeta. eexists. split; [vm_compute; reflexivity |].
  refine (proj2 (proj2 (proj2 (totals_start_from_int_zero [] [] []
            [[vector [Demo.f32 1; Demo.f32 3]]; []] [[vector [Demo.f32 1; Demo.f32 3]]])))
            _ _).
  vm_compute. reflexivity.
Defined.

Lemma losses_are_not_negative_witness :
  let x := vector [Demo.f32 (-1); Demo.f32 3] in
  let y := vector [inf; Demo.f32 (-2)] in
  exists v, feature_matching_loss [[x]] [[y]] = inr v /\ nonneg_num v = true.
Proof.
  cbv zeta. eexists. split; [vm_compute; reflexivity |].
  refine (proj2 (proj2 (proj2 (proj2 (proj2 (losses_are_not_negative [] [] []
            [[vector [Demo.f32 (-1); Demo.f32 3]]] [[vector [inf; Demo.f32 (-2)]]])))))
            _ _).
  vm_compute. reflexivity.
Defined.

Lemma training_step_uses_utilities_witness :
  exists fake2 audio2,
    backwards (fst (training_step (Demo.model (Some 2%Z)) Demo.batch2 1%Z))
    = [S754_finite false 11206656 (-21);
       div (py_value (fst (fst (discriminator_loss
                                  (scores (Demo.model (Some 2%Z)) audio2)
                                  (scores (Demo.model (Some 2%Z)) fake2)))))
           (of_int 2)].
Proof.
  destruct (training_step_uses_utilities (Demo.model (Some 2%Z)) Demo.batch2 1%Z)
    as (a1 & f1 & k & ls & a2 & f2 & k2 & _ & _ & _ & Hb).
  - vm_compute. reflexivity.
  - exists f2, a2.
    assert (Hh : hd zero (backwards (fst (training_step (Demo.model (Some 2%Z)) Demo.batch2 1%Z)))
                 = S754_finite false 11206656 (-21)) by (vm_compute; reflexivity).
    rewrite Hb in Hh |- *. cbn [hd] in Hh. rewrite Hh. reflexivity.
Defined.

Lemma masking_zeroes_padding_witness :
  exists audio1,
    fst (fst (match snd (masked_forward (Demo.model None) Demo.batch2) with
              | inr r => r
              | inl _ => (audio Demo.batch2, audio Demo.batch2, audio Demo.batch2)
              end)) = audio1
    /\ Forall2 (fun p r => if snd p : bool then r = fst p
                           else is_finite (fst p) = true -> exists s, r = S754_zero s)
               (combine (data (audio Demo.batch2))
                        [true; true; true; true; true; true; false; false])
               (data audio1).
Proof.
  eexists. split; [vm_compute; reflexivity |].
  refine (proj1 (proj2 (proj2 (@masking_zeroes_padding (Demo.model None) Demo.batch2
            _ _ _ _ (mkTensor [2; 1; 4] [true; true; true; true; true; true; false; false])
            _ _ _ _ _ _)))).
  - vm_compute. reflexivity.
  - reflexivity.
  - reflexivity.
  - reflexivity.
  - reflexivity.
  - vm_compute. repeat constructor.
Defined.

End MoreWitnesses.
